(** * L4S video conferencing test bench: the two plotting scripts

    A shallow embedding of [configs/setup_testing/plot-csv.py] and
    [configs/setup_testing/plot_iperf3.py].

    Numbers.  Both scripts compute on Python/numpy floating point numbers.
    They are embedded as exact rationals ([Q]); the missing value that pandas
    and numpy write [NaN] is a constructor of its own.  Rounding, infinities
    and overflow of IEEE arithmetic are therefore outside the model; every
    statement below is about which value lands where and by which formula it
    was obtained. *)

From Stdlib Require Import QArith ZArith Lia Lqa Ascii DecimalString.
From stdpp Require Import gmap strings list.

Local Open Scope Z_scope.

(** ** The CSV metrics plotter, [plot-csv.py] *)

Module PlotCsv.

(** The eight positional columns that [load_data] names. *)
Inductive column : Set :=
  | ts | sender | normalized_tput | rtt
  | retr_current | retr_total | cwnd | ssthresh.

#[global] Instance column_eq_dec : EqDecision column.
Proof. solve_decision. Defined.

Definition column_names : list column :=
  [ts; sender; normalized_tput; rtt; retr_current; retr_total; cwnd; ssthresh].

(** One cell of the frame as [pd.read_csv] delivers it: the missing marker,
    a number (the parser recognised the whole column as numeric) or the raw
    text of the field (an [object] column). *)
Inductive cell : Type :=
  | NaN
  | Float (x : Q)
  | Obj (s : string).

Definition isna (c : cell) : bool :=
  match c with NaN => true | _ => false end.

(** A Series is the list of the cells of one column in reading order, a
    DataFrame gives a Series for each column name. *)
Abbreviation Series := (list cell).
Definition DataFrame := column -> Series.

(** [df[col] = s] *)
Definition set_column (df : DataFrame) (col : column) (s : Series) : DataFrame :=
  fun c => if decide (c = col) then s else df c.

Section Process.

(** pandas' text-to-float conversion, used by [pd.to_numeric] on the fields of
    an [object] column.  It is library code: the development is parametric
    in it, [None] is a text that is not a number. *)
Variable str_to_float : string -> option Q.

(** [pd.to_numeric(s, errors='coerce')] *)
Definition coerce (c : cell) : cell :=
  match c with
  | NaN => NaN
  | Float x => Float x
  | Obj s => match str_to_float s with Some x => Float x | None => NaN end
  end.

Definition to_numeric (s : Series) : Series := map coerce s.

(** [fillna(method='ffill')] on one column: [last] is the last valid cell
    seen so far ([NaN] while there is none). *)
Fixpoint ffill_from (last : cell) (s : Series) : Series :=
  match s with
  | [] => []
  | c :: s' =>
      if isna c then last :: ffill_from last s'
      else c :: ffill_from c s'
  end.

Definition ffill (s : Series) : Series := ffill_from NaN s.

(** [df.fillna(method='ffill', inplace=True)]: every column of the frame. *)
Definition fillna_ffill (df : DataFrame) : DataFrame := fun c => ffill (df c).

(** [s / k] on a Series.  Dividing a text cell raises [TypeError] in
    pandas: [None]. *)
Definition cell_div (k : Q) (c : cell) : option cell :=
  match c with
  | NaN => Some NaN
  | Float x => Some (Float (x / k)%Q)
  | Obj _ => None
  end.

Definition series_div (s : Series) (k : Q) : option Series :=
  mapM (cell_div k) s.

Definition numeric_columns : list column :=
  [ts; normalized_tput; rtt; retr_current; retr_total; cwnd; ssthresh].

(** The body of the loop [for col in numeric_columns]. *)
Definition coerce_column (df : DataFrame) (col : column) : DataFrame :=
  set_column df col (to_numeric (df col)).

(** [process_data(df)]; [None] is an exception escaping the function. *)
Definition process_data (df : DataFrame) : option DataFrame :=
  let df := fold_left coerce_column numeric_columns df in
  let df := coerce_column df retr_total in
  let df := fillna_ffill df in
  tput ← series_div (df normalized_tput) (inject_Z 1000);
  Some (set_column df normalized_tput tput).

End Process.

(** *** The script around it: arguments, loading, plotting

    The script talks to the outside: it asks the file system whether the
    path is a file, has pandas read it, prints, saves the figure and may leave
    through [sys.exit].  [world] is what the outside answers, [event] what the
    script does to it, in order. *)

(** [args] as [parser.parse_args()] returns it; [nargs='+'] makes [title] a
    list of words. *)
Record Namespace := { csv_path : string; title : list string }.

Record world := {
  (** [os.path.isfile] *)
  isfile : string -> bool;
  (** [pd.read_csv(path, names=column_names, header=None, na_values=...)]:
      the frame, or the text of the [Exception] it raises. *)
  read_csv : string -> string + DataFrame
}.

Inductive event : Type :=
  | Print (line : string)
  | ReadCsv (path : string)
  | Lineplot (ax : nat) (x y : column)
  | Suptitle (t : string)
  | Savefig (path : string)
  | Show.

Inductive outcome (A : Type) : Type :=
  | Returns (a : A)
  | SysExit (code : Z)
  | Uncaught (exn : string).
Arguments Returns {A} a.
Arguments SysExit {A} code.
Arguments Uncaught {A} exn.

Definition script (A : Type) : Type := world -> list event * outcome A.

#[global] Instance script_ret : MRet script :=
  fun A a _ => ([], Returns a).

#[global] Instance script_bind : MBind script :=
  fun A B f m w =>
    match m w with
    | (tr, Returns a) => let '(tr', o) := f a w in (tr ++ tr', o)
    | (tr, SysExit code) => (tr, SysExit code)
    | (tr, Uncaught e) => (tr, Uncaught e)
    end.

Definition emit (e : event) : script unit := fun _ => ([e], Returns tt).
Definition print (line : string) : script unit := emit (Print line).
Definition sys_exit {A} (code : Z) : script A := fun _ => ([], SysExit code).
Definition raise {A} (exn : string) : script A := fun _ => ([], Uncaught exn).
Definition os_path_isfile (path : string) : script bool :=
  fun w => ([], Returns (isfile w path)).
Definition pd_read_csv (path : string) : script (string + DataFrame) :=
  fun w => ([ReadCsv path], Returns (read_csv w path)).

(** [sep.join(words)] *)
Fixpoint join (sep : string) (words : list string) : string :=
  match words with
  | [] => ""
  | [w] => w
  | w :: ws => w +:+ sep +:+ join sep ws
  end.

(** [s.replace(old, new)] for one-character [old] and [new]. *)
Fixpoint replace (old new : Ascii.ascii) (s : string) : string :=
  match s with
  | EmptyString => EmptyString
  | String c s' => String (if Ascii.eqb c old then new else c) (replace old new s')
  end.

Definition parse_arguments (args : Namespace) : script (string * string) :=
  let plot_title := join " " (title args) in
  ok ← os_path_isfile (csv_path args);
  (if negb ok then
     print ("Error: File '" +:+ csv_path args +:+ "' does not exist.");;
     sys_exit 1
   else mret tt);;
  mret (csv_path args, plot_title).

Definition load_data (path : string) : script DataFrame :=
  r ← pd_read_csv path;
  match r with
  | inr df => mret df
  | inl e => print ("Error reading CSV file: " +:+ e);; sys_exit 1
  end.

(** [safe_title] and [output_image] of [plot_metrics]. *)
Definition safe_title (plot_title : string) : string :=
  if decide (plot_title = "") then "sender-ss" else replace " "%char "_"%char plot_title.

Definition output_image (plot_title : string) : string :=
  safe_title plot_title +:+ "_plots.png".

Definition plot_metrics (df : DataFrame) (plot_title : string) : script unit :=
  emit (Lineplot 0 ts normalized_tput);;
  emit (Lineplot 1 ts rtt);;
  emit (Lineplot 2 ts retr_current);;
  emit (Lineplot 2 ts retr_total);;
  emit (Lineplot 3 ts cwnd);;
  emit (Lineplot 3 ts ssthresh);;
  (if decide (plot_title = "") then mret tt else emit (Suptitle plot_title));;
  emit (Savefig (output_image plot_title));;
  print ("Plots saved as '" +:+ output_image plot_title +:+ "'");;
  emit Show.

Definition main (str_to_float : string -> option Q) (args : Namespace) :
    script unit :=
  '(path, plot_title) ← parse_arguments args;
  df ← load_data path;
  df ← match process_data str_to_float df with
       | Some df => mret df
       | None => raise "TypeError"
       end;
  plot_metrics df plot_title.

(** The exit status of the process. *)
Definition exit_status {A} (o : outcome A) : Z :=
  match o with
  | Returns _ => 0
  | SysExit code => code
  | Uncaught _ => 1
  end.

(** [needle in haystack] *)
Definition contains (haystack needle : string) : Prop :=
  exists pre post, haystack = pre +:+ needle +:+ post.

(** A small instance of the text-to-float conversion, for running the model
    on examples: signed decimal integers only. *)
Definition int_literal (s : string) : option Q :=
  (fun d => inject_Z (Z.of_int d)) <$> NilZero.int_of_string s.

(** A frame used in the examples: three rows, with gaps in [sender],
    [normalized_tput] and [rtt]. *)
Definition sample_frame : DataFrame := fun c =>
  match c with
  | ts => [Float (inject_Z 1); Float (inject_Z 2); Float (inject_Z 3)]
  | sender => [Obj "10.0.0.1"; NaN; NaN]
  | normalized_tput => [NaN; Obj "2500"; NaN]
  | rtt => [Float (inject_Z 50); NaN; Obj "n/a"]
  | _ => [NaN; NaN; NaN]
  end.

(** Command lines and outside worlds used in the examples. *)
Definition sample_args : Namespace :=
  {| csv_path := "sender-ss.csv"; title := ["Test"; "Run"; "1"] |}.

Definition world_without_file : world :=
  {| isfile := fun _ => false; read_csv := fun _ => inr sample_frame |}.

Definition world_with_bad_csv : world :=
  {| isfile := fun _ => true;
     read_csv := fun _ => inl "Error tokenizing data. C error: EOF inside string" |}.

Definition world_with_csv : world :=
  {| isfile := fun _ => true; read_csv := fun _ => inr sample_frame |}.


(** What [replace(' ', '_')] does to one character. *)
Definition underscored (c : Ascii.ascii) : Ascii.ascii :=
  if Ascii.eqb c " " then "_"%char else c.

(** The unit conversion that [process_data] applies to one cell of column
    [col]: Kbps to Mbps on the throughput, nothing elsewhere. *)
Definition converted (col : column) (x : Q) : Q :=
  if decide (col = normalized_tput) then (x / inject_Z 1000)%Q else x.

Definition scale_cell (k : Q) (c : cell) : cell :=
  match c with
  | Float x => Float (x / k)%Q
  | _ => c
  end.

Definition numeric_cell (c : cell) : Prop :=
  match c with Obj _ => False | _ => True end.

End PlotCsv.

(** ** The iperf3 stream plotter, [plot_iperf3.py] *)

Module PlotIperf3.

(** The part of the iperf3 JSON report that the script reads.  [rtt] is
    fetched with [stream.get('rtt', 0)] and may be absent; the other keys are
    indexed directly. *)
Record stream := {
  socket : Z;
  stream_rtt : option Q;
  bits_per_second : Q
}.

Record interval := {
  streams : list stream;
  sum_start : Q
}.

Record report := { intervals : option (list interval) }.

(** The dictionary [{'time': [...], 'rtt': [...], 'bps': [...]}], which the
    script uses both for the samples of a stream and for their averages. *)
Record series (A : Type) := Series {
  time : list A;
  rtt : list A;
  bps : list A
}.
Arguments Series {A} _ _ _.
Arguments time {A} _.
Arguments rtt {A} _.
Arguments bps {A} _.

(** A numpy float: [None] is [nan]. *)
Definition npfloat := option Q.

Definition append_time {A} (x : A) (d : series A) : series A :=
  Series (time d ++ [x]) (rtt d) (bps d).
Definition append_rtt {A} (x : A) (d : series A) : series A :=
  Series (time d) (rtt d ++ [x]) (bps d).
Definition append_bps {A} (x : A) (d : series A) : series A :=
  Series (time d) (rtt d) (bps d ++ [x]).

(** The conversions made at collection time. *)
Definition rtt_of (s : stream) : Q :=
  (default (inject_Z 0) (stream_rtt s) / inject_Z (10 ^ 3))%Q.
Definition bps_of (s : stream) : Q :=
  (bits_per_second s / inject_Z (10 ^ 6))%Q.

(** The body of the inner loop [for stream in interval['streams']]. *)
Definition collect_stream (itv : interval)
    (stream_data : gmap Z (series Q)) (s : stream) : gmap Z (series Q) :=
  let stream_id := socket s in
  let stream_data :=
    match stream_data !! stream_id with
    | None => <[stream_id := Series [] [] []]> stream_data
    | Some _ => stream_data
    end in
  let stream_data := alter (append_time (sum_start itv)) stream_id stream_data in
  let stream_data := alter (append_rtt (rtt_of s)) stream_id stream_data in
  alter (append_bps (bps_of s)) stream_id stream_data.

Definition collect_interval (stream_data : gmap Z (series Q)) (itv : interval) :
    gmap Z (series Q) :=
  fold_left (collect_stream itv) (streams itv) stream_data.

(** [stream_data] once the collection loop has run over
    [iperf_data.get('intervals', [])]. *)
Definition collect (iperf_data : report) : gmap Z (series Q) :=
  fold_left collect_interval (default [] (intervals iperf_data)) ∅.

(** *** Python's [range] and slices *)

Fixpoint range_up (fuel : nat) (i stop step : Z) : list Z :=
  match fuel with
  | O => []
  | S fuel => if i <? stop then i :: range_up fuel (i + step) stop step else []
  end.

Fixpoint range_down (fuel : nat) (i stop step : Z) : list Z :=
  match fuel with
  | O => []
  | S fuel => if stop <? i then i :: range_down fuel (i + step) stop step else []
  end.

(** [list(range(start, stop, step))]; [None] is the [ValueError] of a zero
    step.  The distance between [start] and [stop] is fuel enough, since each
    turn moves by at least one. *)
Definition py_range (start stop step : Z) : option (list Z) :=
  if step =? 0 then None
  else if 0 <? step then Some (range_up (Z.to_nat (stop - start)) start stop step)
  else Some (range_down (Z.to_nat (start - stop)) start stop step).

(** How a slice bound is brought into [0 .. len]: a negative bound counts
    from the end. *)
Definition slice_bound (len i : Z) : Z :=
  if i <? 0 then Z.max 0 (i + len) else Z.min i len.

(** [l[lo:hi]] *)
Definition py_slice {A} (l : list A) (lo hi : Z) : list A :=
  let len := Z.of_nat (length l) in
  let a := slice_bound len lo in
  let b := slice_bound len hi in
  take (Z.to_nat (b - a)) (drop (Z.to_nat a) l).

(** *** Averages over chunks *)

Definition Qsum (l : list Q) : Q := foldr Qplus (inject_Z 0) l.

(** The arithmetic mean of a non-empty list. *)
Definition arith_mean (l : list Q) : Q :=
  (Qsum l / inject_Z (Z.of_nat (length l)))%Q.

(** [np.mean(l)]: [nan] for an empty list. *)
Definition np_mean (l : list Q) : npfloat :=
  match l with
  | [] => None
  | _ => Some (arith_mean l)
  end.

(** [x - k] on a numpy float. *)
Definition np_sub (x : npfloat) (k : Q) : npfloat :=
  (fun v => (v - k)%Q) <$> x.

(** The body of the loop of [compute_averages]. *)
Definition average_chunk (data : series Q) (chunk_size : Z)
    (avg_data : series npfloat) (i : Z) : series npfloat :=
  let chunk_time := py_slice (time data) i (i + chunk_size) in
  let chunk_rtt := py_slice (rtt data) i (i + chunk_size) in
  let chunk_bps := py_slice (bps data) i (i + chunk_size) in
  match chunk_time with
  | [] => avg_data
  | _ =>
      let avg_data := append_time (np_mean chunk_time) avg_data in
      let avg_data := append_rtt (np_sub (np_mean chunk_rtt) (inject_Z 45)) avg_data in
      append_bps (np_mean chunk_bps) avg_data
  end.

(** [compute_averages(data, chunk_size)]; [None] is the [ValueError] that
    [range] raises for [chunk_size = 0]. *)
Definition compute_averages (data : series Q) (chunk_size : Z) :
    option (series npfloat) :=
  idx ← py_range 0 (Z.of_nat (length (time data))) chunk_size;
  Some (fold_left (average_chunk data chunk_size) idx (Series [] [] [])).

(** [ceil(n / c)] for positive [c]. *)
Definition ceil_div (n c : Z) : Z := (n + c - 1) / c.

(** The samples of the report in reading order, each with the start of its
    interval: the order in which the collection loop meets them. *)
Definition samples (iperf_data : report) : list (Q * stream) :=
  itv ← default [] (intervals iperf_data);
  (fun s => (sum_start itv, s)) <$> streams itv.

(** The samples that carry socket [id], in that order. *)
Definition samples_of (id : Z) (l : list (Q * stream)) : list (Q * stream) :=
  filter (fun p => socket p.2 = id) l.

(** The series that a list of samples makes: one entry per sample on each of
    the three keys, converted as at collection time. *)
Definition series_of (l : list (Q * stream)) : series Q :=
  Series ((fun p => p.1) <$> l) ((fun p => rtt_of p.2) <$> l)
         ((fun p => bps_of p.2) <$> l).

(** What the stream dictionary should hold under [id] once the samples [l]
    have been collected: nothing if no sample carries [id], else the series
    of those that do. *)
Definition grouped (id : Z) (l : list (Q * stream)) : option (series Q) :=
  match samples_of id l with
  | [] => None
  | g => Some (series_of g)
  end.

(** The [k]-th chunk of [l], counting from 0, and the partition of [l] into
    contiguous chunks of [c] elements, the last one possibly shorter. *)
Definition chunk {A} (c : Z) (l : list A) (k : nat) : list A :=
  take (Z.to_nat c) (drop (k * Z.to_nat c) l).

Definition chunks {A} (c : Z) (l : list A) : list (list A) :=
  chunk c l <$> seq 0 (Z.to_nat (ceil_div (Z.of_nat (length l)) c)).

(** A report used in the examples: two intervals, sockets 5 and 7, the
    second sample of socket 7 without [rtt]. *)
Definition sample_report : report :=
  {| intervals := Some [
       {| streams := [
            {| socket := 5; stream_rtt := Some (inject_Z 51200);
               bits_per_second := inject_Z 8000000 |};
            {| socket := 7; stream_rtt := Some (inject_Z 49800);
               bits_per_second := inject_Z 6000000 |} ];
          sum_start := inject_Z 0 |};
       {| streams := [
            {| socket := 7; stream_rtt := None;
               bits_per_second := inject_Z 7000000 |};
            {| socket := 5; stream_rtt := Some (inject_Z 50300);
               bits_per_second := inject_Z 9000000 |} ];
          sum_start := inject_Z 1 |} ] |}.

(** A stream of 25 samples, one per second. *)
Definition sample_stream : series Q :=
  Series (inject_Z <$> seqZ 0 25)
         ((fun k => inject_Z (50 + k)) <$> seqZ 0 25)
         ((fun k => inject_Z (100 - k)) <$> seqZ 0 25).

(** *** The script as a whole

    The report as [json.load] returns it, before the script has looked at
    it: every key that the script indexes may be missing.  A value that is
    present has the expected type. *)
Module Raw.
Record stream := {
  socket : option Z;
  rtt : option Q;
  bits_per_second : option Q
}.
(** [sum] is [None] without the key [sum], [Some None] when the object is
    there without the key [start]. *)
Record interval := {
  streams : option (list stream);
  sum : option (option Q)
}.
Record report := { intervals : option (list interval) }.
End Raw.

(** The report with every key in place. *)
Definition raw_of_stream (s : stream) : Raw.stream :=
  {| Raw.socket := Some (socket s);
     Raw.rtt := stream_rtt s;
     Raw.bits_per_second := Some (bits_per_second s) |}.

Definition raw_of_interval (itv : interval) : Raw.interval :=
  {| Raw.streams := Some (raw_of_stream <$> streams itv);
     Raw.sum := Some (Some (sum_start itv)) |}.

Definition raw_of (iperf_data : report) : Raw.report :=
  {| Raw.intervals := option_map (map raw_of_interval) (intervals iperf_data) |}.

(** What one turn of the inner loop reads, in the order in which it reads
    it: [stream['socket']], [interval['sum']['start']], then
    [stream['bits_per_second']]; [inl key] is [KeyError: key]. *)
Definition read_stream (itv : Raw.interval) (s : Raw.stream) :
    string + (Q * stream) :=
  match Raw.socket s with
  | None => inl "socket"
  | Some id =>
      match Raw.sum itv with
      | None => inl "sum"
      | Some None => inl "start"
      | Some (Some start) =>
          match Raw.bits_per_second s with
          | None => inl "bits_per_second"
          | Some b =>
              inr (start, {| socket := id; stream_rtt := Raw.rtt s;
                             bits_per_second := b |})
          end
      end
  end.

(** A Python dictionary iterates in insertion order: the map, with its keys
    in the order in which they were first assigned. *)
Record odict := { keys : list Z; values : gmap Z (series Q) }.

(** [d.items()] *)
Definition items (d : odict) : list (Z * series Q) :=
  omap (fun k => (fun v => (k, v)) <$> values d !! k) (keys d).

(** One turn of the inner loop on a sample that has its keys. *)
Definition collect_sample (d : odict) (p : Q * stream) : odict :=
  {| keys := match values d !! socket p.2 with
             | None => keys d ++ [socket p.2]
             | Some _ => keys d
             end;
     values := collect_stream {| streams := []; sum_start := p.1 |} (values d) p.2 |}.

(** The loops; a [KeyError] ends the script, so the dictionary it leaves
    half updated is not kept. *)
Fixpoint collect_streams_keyed (itv : Raw.interval) (d : odict)
    (ss : list Raw.stream) : string + odict :=
  match ss with
  | [] => inr d
  | s :: ss =>
      match read_stream itv s with
      | inl key => inl key
      | inr p => collect_streams_keyed itv (collect_sample d p) ss
      end
  end.

Fixpoint collect_intervals_keyed (d : odict) (itvs : list Raw.interval) :
    string + odict :=
  match itvs with
  | [] => inr d
  | itv :: itvs =>
      match Raw.streams itv with
      | None => inl "streams"
      | Some ss =>
          match collect_streams_keyed itv d ss with
          | inl key => inl key
          | inr d => collect_intervals_keyed d itvs
          end
      end
  end.

Definition collect_keyed (iperf_data : Raw.report) : string + odict :=
  collect_intervals_keyed {| keys := []; values := ∅ |}
    (default [] (Raw.intervals iperf_data)).

(** The calls that the script makes to matplotlib. *)
Inductive event : Type :=
  | Figure
  | Plot (xs ys : list npfloat) (label : string)
  | Legend
  | Title (t : string)
  | Xlabel (t : string)
  | Ylabel (t : string)
  | Axhline (y : Z) (label : string)
  | Grid
  | Savefig (path : string)
  | Show.

Abbreviation outcome := PlotCsv.outcome.
Abbreviation Returns := PlotCsv.Returns.
Abbreviation Uncaught := PlotCsv.Uncaught.

(** [str(n)] *)
Definition str (n : nat) : string := NilEmpty.string_of_uint (Nat.to_uint n).

(** The plotting loop [for stream_id, data in stream_data.items()], from
    counter value [stream] on; [pick] is the key plotted against time and
    [word] the word before the counter in the label. *)
Fixpoint plot_streams (word : string) (pick : series npfloat -> list npfloat)
    (stream : nat) (its : list (Z * series Q)) : list event * outcome unit :=
  match its with
  | [] => ([], Returns tt)
  | (stream_id, data) :: its =>
      match compute_averages data 10 with
      | None => ([], Uncaught "ValueError")
      | Some avg_data =>
          let '(tr, o) := plot_streams word pick (S stream) its in
          (Plot (time avg_data) (pick avg_data) (word +:+ " " +:+ str stream) :: tr, o)
      end
  end.

(** [a] then, if it returned, [b]. *)
Definition and_then (a b : list event * outcome unit) : list event * outcome unit :=
  match a with
  | (tr, PlotCsv.Returns _) => (tr ++ b.1, b.2)
  | _ => a
  end.

Definition figures (its : list (Z * series Q)) : list event * outcome unit :=
  and_then ([Figure], Returns tt)
 (and_then (plot_streams "Stream" rtt 1 its)
 (and_then ([Legend;
             Title "Aggregated RTT vs Time (TCP Cubic)";
             Xlabel "Time (seconds)";
             Ylabel "RTT (ms)";
             Axhline 50 "Base RTT 50ms";
             Grid;
             Savefig "rtt_vs_time_cubic.png";
             Show;
             Figure], Returns tt)
 (and_then (plot_streams "Steam" bps 1 its)
           ([Legend;
             Title "Aggregated Bits per Second vs Time (TCP Cubic)";
             Xlabel "Time (seconds)";
             Ylabel "Bits per Second";
             Savefig "tput_vs_time_cubic.png";
             Grid;
             Show], Returns tt)))).

Definition file_path : string := "./cubic_5flows.json".

(** [open(file_path)] followed by [json.load]: the parsed report, or the
    text of the exception. *)
Record world := { json_load : string -> string + Raw.report }.

(** The script from top to bottom. *)
Definition main (w : world) : list event * outcome unit :=
  match json_load w file_path with
  | inl exn => ([], Uncaught exn)
  | inr iperf_data =>
      match collect_keyed iperf_data with
      | inl key => ([], Uncaught ("KeyError: '" +:+ key +:+ "'"))
      | inr stream_data => figures (items stream_data)
      end
  end.

(** The socket ids of a list of samples, each once, in the order in which
    they first occur. *)
Fixpoint first_seen (ids : list Z) : list Z :=
  match ids with
  | [] => []
  | id :: ids => id :: filter (fun x => x <> id) (first_seen ids)
  end.

(** The line that the plotting loop draws for the [k]-th entry. *)
Definition line (word : string) (pick : series npfloat -> list npfloat)
    (k : nat) (it : Z * series Q) : event :=
  Plot (np_mean <$> chunks 10 (time it.2))
       (pick (Series
          (np_mean <$> chunks 10 (time it.2))
          ((fun ch => np_sub (np_mean ch) (inject_Z 45)) <$> chunks 10 (rtt it.2))
          (np_mean <$> chunks 10 (bps it.2))))
       (word +:+ " " +:+ str (S k)).

Definition socket_ids (l : list (Q * stream)) : list Z :=
  (fun p => socket p.2) <$> l.

(** What [stream_data.items()] should be for a report: one entry per socket
    id, in the order in which the ids first occur, each with the series of
    its samples. *)
Definition stream_items (iperf_data : report) : list (Z * series Q) :=
  (fun id => (id, series_of (samples_of id (samples iperf_data))))
    <$> first_seen (socket_ids (samples iperf_data)).

(** The dictionary [d] is what the samples [seen] should have made it. *)
Definition tracks (d : odict) (seen : list (Q * stream)) : Prop :=
  (forall id, values d !! id = grouped id seen) /\
  keys d = first_seen (socket_ids seen).

(** The names under which a run saved figures, in order. *)
Definition saved (tr : list event) : list string :=
  omap (fun e => match e with Savefig path => Some path | _ => None end) tr.

(** The keys that the collection loop indexes are there: every interval has
    [streams], and every stream has [socket] and [bits_per_second] and sits
    in an interval with [sum.start]. *)
Definition keyed_stream (itv : Raw.interval) (s : Raw.stream) : Prop :=
  is_Some (Raw.socket s) /\ is_Some (Raw.bits_per_second s) /\
  exists start, Raw.sum itv = Some (Some start).

Definition keyed_interval (itv : Raw.interval) : Prop :=
  exists ss, Raw.streams itv = Some ss /\ Forall (keyed_stream itv) ss.

Definition well_keyed (iperf_data : Raw.report) : Prop :=
  Forall keyed_interval (default [] (Raw.intervals iperf_data)).

(** A report whose second interval has a stream without [bits_per_second],
    and whose first interval, which has no streams, lacks [sum]. *)
Definition report_missing_key : Raw.report :=
  {| Raw.intervals := Some [
       {| Raw.streams := Some []; Raw.sum := None |};
       {| Raw.streams := Some [
            {| Raw.socket := Some 5; Raw.rtt := None;
               Raw.bits_per_second := None |} ];
          Raw.sum := Some (Some (inject_Z 1)) |} ] |}.

(** The three lists of an entry have one length. *)
Definition equal_lengths (it : Z * series Q) : Prop :=
  length (rtt it.2) = length (time it.2) /\
  length (bps it.2) = length (time it.2).

(** The log of a run that drew the lines [rtt_lines] in the first figure
    and [bps_lines] in the second. *)
Definition figures_log (rtt_lines bps_lines : list event) : list event :=
  [Figure] ++ rtt_lines ++
  [Legend;
   Title "Aggregated RTT vs Time (TCP Cubic)";
   Xlabel "Time (seconds)";
   Ylabel "RTT (ms)";
   Axhline 50 "Base RTT 50ms";
   Grid;
   Savefig "rtt_vs_time_cubic.png";
   Show;
   Figure] ++ bps_lines ++
  [Legend;
   Title "Aggregated Bits per Second vs Time (TCP Cubic)";
   Xlabel "Time (seconds)";
   Ylabel "Bits per Second";
   Savefig "tput_vs_time_cubic.png";
   Grid;
   Show].

Definition world_without_intervals : world :=
  {| json_load := fun _ => inr (raw_of {| intervals := None |}) |}.

(** A stream whose [rtt] list was lost: 25 times, no [rtt]. *)
Definition stream_without_rtt : series Q :=
  Series (time sample_stream) [] (bps sample_stream).


(** Worlds for the examples. *)
Definition world_with_report : world :=
  {| json_load := fun _ => inr (raw_of sample_report) |}.

Definition world_without_report : world :=
  {| json_load := fun _ => inl "[Errno 2] No such file or directory: './cubic_5flows.json'" |}.

End PlotIperf3.

(** ** Properties of the CSV metrics plotter *)

Module PlotCsvProps.
Import PlotCsv.

Section Process.

Variable str_to_float : string -> option Q.

Local Abbreviation coerce := (coerce str_to_float).
Local Abbreviation to_numeric := (to_numeric str_to_float).
Local Abbreviation process_data := (process_data str_to_float).

Lemma coerce_numeric c : numeric_cell (coerce c).
Proof. destruct c as [| x | s]; simpl; try done. by destruct (str_to_float s). Qed.

Lemma coerce_idemp c : coerce (coerce c) = coerce c.
Proof. destruct c as [| x | s]; simpl; try done. by destruct (str_to_float s). Qed.

Lemma to_numeric_idemp s : to_numeric (to_numeric s) = to_numeric s.
Proof.
  unfold to_numeric. rewrite <- list_fmap_compose.
  apply list_fmap_ext. intros _ c _. apply coerce_idemp.
Qed.

Lemma to_numeric_numeric s : Forall numeric_cell (to_numeric s).
Proof. apply Forall_fmap, Forall_true. intros c. apply coerce_numeric. Qed.

(** The frame after the coercion loop and the repeated coercion of
    [retr_total]: [sender] is as it was read, every other column is
    coerced once. *)
Lemma coerced_frame df c :
  coerce_column str_to_float
    (fold_left (coerce_column str_to_float) numeric_columns df) retr_total c
  = if decide (c = sender) then df c else to_numeric (df c).
Proof.
  destruct c; cbn; try reflexivity.
  apply to_numeric_idemp.
Qed.

Lemma ffill_from_numeric last s :
  numeric_cell last -> Forall numeric_cell s ->
  Forall numeric_cell (ffill_from last s).
Proof.
  intros Hl Hs. revert last Hl.
  induction Hs as [| c s Hc _ IH]; intros last Hl; simpl; [constructor |].
  destruct (isna c); constructor; auto.
Qed.

Lemma ffill_from_length last s : length (ffill_from last s) = length s.
Proof.
  revert last. induction s as [| c s IH]; intros last; simpl; [done |].
  destruct (isna c); simpl; by rewrite IH.
Qed.

(** A valid cell is kept. *)
Lemma ffill_from_valid last s i c :
  s !! i = Some c -> isna c = false -> ffill_from last s !! i = Some c.
Proof.
  revert last i. induction s as [| d s IH]; intros last i Hi Hc; [done |].
  destruct i as [| i]; simpl in *.
  - injection Hi as ->. by rewrite Hc.
  - destruct (isna d); simpl; by apply IH.
Qed.

(** Before the first valid cell the fill is what came in from the left. *)
Lemma ffill_from_leading last s i :
  (i < length s)%nat ->
  (forall k, (k <= i)%nat -> s !! k = Some NaN) ->
  ffill_from last s !! i = Some last.
Proof.
  revert last i. induction s as [| d s IH]; intros last i Hi Hk; simpl in *; [lia |].
  pose proof (Hk 0%nat ltac:(lia)) as H0. simpl in H0. injection H0 as ->. simpl.
  destruct i as [| i]; [done |]. simpl. apply IH; [lia |].
  intros k Hle. apply (Hk (S k)). lia.
Qed.

(** A gap takes the nearest valid cell on its left. *)
Lemma ffill_from_gap last s i j v :
  (j < i)%nat -> s !! j = Some v -> isna v = false ->
  (forall k, (j < k <= i)%nat -> s !! k = Some NaN) ->
  ffill_from last s !! i = Some v.
Proof.
  revert last i j. induction s as [| d s IH]; intros last i j Hji Hj Hv Hk; [done |].
  destruct i as [| i]; [lia |].
  destruct j as [| j]; simpl in *.
  - injection Hj as ->. rewrite Hv. simpl.
    destruct (decide (i < length s)%nat) as [Hlt | Hge].
    + apply ffill_from_leading; [done |].
      intros k Hle. apply (Hk (S k)). lia.
    + specialize (Hk (S i) ltac:(lia)). simpl in Hk.
      apply lookup_lt_Some in Hk. lia.
  - assert (ffill_from d s !! i = Some v /\ ffill_from last s !! i = Some v) as [? ?].
    { split; apply (IH _ i j); try done; try lia;
        intros k Hle; apply (Hk (S k)); lia. }
    by destruct (isna d).
Qed.

Lemma series_div_numeric s k :
  Forall numeric_cell s -> series_div s k = Some (scale_cell k <$> s).
Proof.
  intros Hs. unfold series_div. apply mapM_Some.
  induction Hs as [| c s Hc _ IH]; simpl; constructor; [| done].
  by destruct c.
Qed.

(** [process_data] never raises, and this is the frame it returns. *)
Lemma process_data_frame df :
  exists out, process_data df = Some out /\
    forall c, out c =
      if decide (c = sender) then ffill (df c)
      else if decide (c = normalized_tput)
        then scale_cell (inject_Z 1000) <$> ffill (to_numeric (df c))
        else ffill (to_numeric (df c)).
Proof.
  unfold process_data, PlotCsv.process_data.
  set (df1 := coerce_column _ _ _).
  assert (Hdf1 : forall c, df1 c =
            if decide (c = sender) then df c else to_numeric (df c))
    by apply coerced_frame.
  clearbody df1.
  rewrite (series_div_numeric _ _).
  - eexists. split; [reflexivity |].
    intros c. unfold set_column, fillna_ffill.
    rewrite !Hdf1. by destruct c.
  - unfold fillna_ffill. rewrite Hdf1. simpl.
    apply ffill_from_numeric; [done | apply to_numeric_numeric].
Qed.

Lemma numeric_not_sender col : col ∈ numeric_columns -> col <> sender.
Proof.
  intros H ->. unfold numeric_columns in H.
  repeat (apply elem_of_cons in H as [H | H]; [discriminate |]).
  by apply elem_of_nil in H.
Qed.

Lemma tput_is_numeric : normalized_tput ∈ numeric_columns.
Proof. unfold numeric_columns. repeat constructor. Qed.

Lemma converted_other col x : col <> normalized_tput -> converted col x = x.
Proof. intros H. unfold converted. by destruct (decide _). Qed.

(** The processed column of a numeric column, cell by cell. *)
Lemma processed_numeric_lookup df out col i :
  col ∈ numeric_columns ->
  (forall c, out c =
      if decide (c = sender) then ffill (df c)
      else if decide (c = normalized_tput)
        then scale_cell (inject_Z 1000) <$> ffill (to_numeric (df c))
        else ffill (to_numeric (df c))) ->
  forall c, ffill (to_numeric (df col)) !! i = Some c ->
  out col !! i = Some (match c with Float x => Float (converted col x) | _ => c end).
Proof.
  intros Hcol Hout c Hc. rewrite Hout.
  destruct (decide (col = sender)) as [Hs | _].
  { by apply numeric_not_sender in Hcol. }
  unfold converted. destruct (decide (col = normalized_tput)) as [Ht | _].
  - rewrite list_lookup_fmap, Hc. by destruct c.
  - rewrite Hc. by destruct c.
Qed.

(** C1.  Forward-fill law.  Let [col] be one of the seven numeric columns
    and read its cells after coercion to numbers.  A missing cell in row [i]
    whose nearest valid cell above is [v], in row [j], has after processing
    the value that row [j] has after processing, namely [v] (in the unit of
    the processed column: the throughput column is divided by 1000 as a
    whole, the others are left as they are).  A cell with no valid cell at
    or above it is still missing after processing. *)
Theorem forward_fill_law (df : DataFrame) (col : column) :
  col ∈ numeric_columns ->
  exists out, process_data df = Some out /\
    (forall i j v, (j < i)%nat ->
       to_numeric (df col) !! j = Some (Float v) ->
       (forall k, (j < k <= i)%nat -> to_numeric (df col) !! k = Some NaN) ->
       out col !! i = out col !! j /\
       out col !! j = Some (Float (converted col v))) /\
    (forall i, (i < length (df col))%nat ->
       (forall k, (k <= i)%nat -> to_numeric (df col) !! k = Some NaN) ->
       out col !! i = Some NaN).
Proof.
  intros Hcol. destruct (process_data_frame df) as (out & Hrun & Hout).
  exists out. split; [done |]. split.
  - intros i j v Hji Hj Hgap.
    assert (Hfj : ffill (to_numeric (df col)) !! j = Some (Float v))
      by (by apply ffill_from_valid).
    assert (Hfi : ffill (to_numeric (df col)) !! i = Some (Float v))
      by (by apply (ffill_from_gap _ _ i j)).
    rewrite (processed_numeric_lookup df out col i Hcol Hout _ Hfi).
    by rewrite (processed_numeric_lookup df out col j Hcol Hout _ Hfj).
  - intros i Hi Hlead.
    assert (Hfi : ffill (to_numeric (df col)) !! i = Some NaN).
    { apply ffill_from_leading; [| done].
      unfold to_numeric, PlotCsv.to_numeric. by rewrite length_map. }
    by rewrite (processed_numeric_lookup df out col i Hcol Hout _ Hfi).
Qed.

(** C4.  A throughput cell that is a number after coercion, [v], is
    [v / 1000] after processing. *)
Theorem throughput_conversion (df : DataFrame) (i : nat) (c : cell) (v : Q) :
  df normalized_tput !! i = Some c ->
  coerce c = Float v ->
  exists out, process_data df = Some out /\
    out normalized_tput !! i = Some (Float (v / inject_Z 1000)%Q).
Proof.
  intros Hi Hc. destruct (process_data_frame df) as (out & Hrun & Hout).
  exists out. split; [done |].
  assert (Hf : ffill (to_numeric (df normalized_tput)) !! i = Some (Float v)).
  { apply ffill_from_valid; [| done].
    unfold to_numeric, PlotCsv.to_numeric.
    by rewrite list_lookup_fmap, Hi; simpl; rewrite Hc. }
  rewrite (processed_numeric_lookup df out normalized_tput i
             tput_is_numeric Hout _ Hf).
  done.
Qed.

(** C10.  The forward fill runs over the whole frame: the processed
    [sender] column is the forward fill of the column as read, so a missing
    sender below a valid one takes the nearest valid sender above it, and the
    column is changed by processing. *)
Theorem ffill_reaches_sender (df : DataFrame) (i j : nat) (v : cell) :
  (j < i)%nat ->
  df sender !! j = Some v -> isna v = false ->
  (forall k, (j < k <= i)%nat -> df sender !! k = Some NaN) ->
  exists out, process_data df = Some out /\
    out sender = ffill (df sender) /\
    out sender !! i = Some v /\
    out sender <> df sender.
Proof.
  intros Hji Hj Hv Hgap. destruct (process_data_frame df) as (out & Hrun & Hout).
  exists out. split; [done |].
  assert (Hs : out sender = ffill (df sender)) by (by rewrite Hout).
  assert (Hi : out sender !! i = Some v)
    by (rewrite Hs; by apply (ffill_from_gap _ _ i j)).
  repeat split; try done.
  intros Heq. rewrite Heq, (Hgap i ltac:(lia)) in Hi.
  injection Hi as <-. done.
Qed.

End Process.

Lemma forward_fill_law_witness :
  normalized_tput ∈ numeric_columns /\
  exists out, process_data int_literal sample_frame = Some out /\
    out normalized_tput !! 2%nat = out normalized_tput !! 1%nat /\
    out normalized_tput !! 1%nat = Some (Float (inject_Z 2500 / inject_Z 1000)%Q) /\
    out normalized_tput !! 0%nat = Some NaN.
Proof.
  split; [exact tput_is_numeric |].
  destruct (forward_fill_law int_literal sample_frame normalized_tput tput_is_numeric)
    as (out & Hrun & Hgap & Hlead).
  exists out. split; [exact Hrun |].
  destruct (Hgap 2%nat 1%nat (inject_Z 2500)) as [H21 H1].
  - lia.
  - reflexivity.
  - intros k Hk. assert (k = 2%nat) as -> by lia. reflexivity.
  - split; [exact H21 |]. split; [exact H1 |].
    apply Hlead; [simpl; lia |].
    intros k Hk. assert (k = 0%nat) as -> by lia. reflexivity.
Defined.

Lemma throughput_conversion_witness :
  exists out, process_data int_literal sample_frame = Some out /\
    out normalized_tput !! 1%nat = Some (Float (inject_Z 2500 / inject_Z 1000)%Q).
Proof.
  apply (throughput_conversion int_literal sample_frame 1 (Obj "2500") (inject_Z 2500));
    reflexivity.
Defined.

Lemma ffill_reaches_sender_witness :
  exists out, process_data int_literal sample_frame = Some out /\
    out sender = ffill (sample_frame sender) /\
    out sender !! 2%nat = Some (Obj "10.0.0.1") /\
    out sender <> sample_frame sender.
Proof.
  apply (ffill_reaches_sender int_literal sample_frame 2 0 (Obj "10.0.0.1")).
  - lia.
  - reflexivity.
  - reflexivity.
  - intros k Hk.
    destruct k as [| [| [| k]]]; try lia; reflexivity.
Defined.

(** *** File name, arguments and loading *)

Lemma replace_spec old new s i :
  String.get i (replace old new s)
  = (fun c => if Ascii.eqb c old then new else c) <$> String.get i s.
Proof.
  revert i. induction s as [| c s IH]; intros i; simpl; [done |].
  destruct i as [| i]; [done | apply IH].
Qed.

Lemma replace_length old new s :
  String.length (replace old new s) = String.length s.
Proof. induction s as [| c s IH]; simpl; [done | by rewrite IH]. Qed.

(** C6.  The file name of the figure is a function of the title alone.
    For a non-empty title it is the title with every space turned into an
    underscore (and every other character kept), followed by [_plots.png];
    for the empty title it is [sender-ss_plots.png]; and this is the name
    that [plot_metrics] saves the figure under. *)
Theorem output_image_of_title :
  output_image "Test Run 1" = "Test_Run_1_plots.png" /\
  output_image "" = "sender-ss_plots.png" /\
  (forall c t, exists u,
      output_image (String c t) = u +:+ "_plots.png" /\
      String.length u = String.length (String c t) /\
      forall i, String.get i u = underscored <$> String.get i (String c t)) /\
  (forall df t w, exists before after,
      plot_metrics df t w
      = (before ++ Savefig (output_image t) :: after, Returns tt)).
Proof.
  split; [reflexivity |]. split; [reflexivity |]. split.
  - intros c t. exists (replace " " "_" (String c t)).
    split; [reflexivity |]. split; [apply replace_length | apply replace_spec].
  - intros df t w.
    unfold plot_metrics, print, emit, mbind, script_bind, mret, script_ret.
    destruct (decide (t = "")); simpl.
    + by eexists (_ :: _ :: _ :: _ :: _ :: [_]), _.
    + by eexists (_ :: _ :: _ :: _ :: _ :: _ :: [_]), _.
Qed.

Lemma contains_infix pre needle post : contains (pre +:+ needle +:+ post) needle.
Proof. by exists pre, post. Qed.

(** C7.  When the path argument does not name an existing file, the script
    prints one line, which contains the path, and leaves through
    [sys.exit(1)]; [pd.read_csv] is never called. *)
Theorem missing_file_exits (str_to_float : string -> option Q)
    (w : world) (args : Namespace) :
  isfile w (csv_path args) = false ->
  exists msg,
    main str_to_float args w = ([Print msg], SysExit 1) /\
    contains msg (csv_path args) /\
    exit_status (main str_to_float args w).2 = 1 /\
    forall path, ReadCsv path ∉ (main str_to_float args w).1.
Proof.
  intros Hfile.
  assert (Hrun : main str_to_float args w
    = ([Print ("Error: File '" +:+ csv_path args +:+ "' does not exist.")],
       SysExit 1)).
  { unfold main, parse_arguments, os_path_isfile, mbind, script_bind.
    by rewrite Hfile. }
  eexists. split; [exact Hrun |]. rewrite Hrun. simpl.
  split; [apply contains_infix |]. split; [done |].
  intros path Hin. apply list_elem_of_singleton in Hin. discriminate.
Qed.

Lemma missing_file_exits_witness :
  exists msg,
    main int_literal sample_args world_without_file = ([Print msg], SysExit 1) /\
    contains msg "sender-ss.csv" /\
    exit_status (main int_literal sample_args world_without_file).2 = 1 /\
    forall path, ReadCsv path ∉ (main int_literal sample_args world_without_file).1.
Proof.
  apply (missing_file_exits int_literal world_without_file sample_args).
  reflexivity.
Defined.

(** C8.  When the file exists and [pd.read_csv] raises, the exception is
    caught: the script prints [Error reading CSV file: ...] with the text of
    the exception and leaves through [sys.exit(1)]; nothing is left
    uncaught. *)
Theorem parse_failure_exits (str_to_float : string -> option Q)
    (w : world) (args : Namespace) (e : string) :
  isfile w (csv_path args) = true ->
  read_csv w (csv_path args) = inl e ->
  main str_to_float args w
  = ([ReadCsv (csv_path args); Print ("Error reading CSV file: " +:+ e)],
     SysExit 1) /\
  exit_status (main str_to_float args w).2 <> 0.
Proof.
  intros Hfile Hread.
  assert (Hrun : main str_to_float args w
    = ([ReadCsv (csv_path args); Print ("Error reading CSV file: " +:+ e)],
       SysExit 1)).
  { unfold main, parse_arguments, load_data, os_path_isfile, pd_read_csv,
      mbind, script_bind.
    rewrite Hfile. simpl. by rewrite Hread. }
  split; [exact Hrun |]. by rewrite Hrun.
Qed.

Lemma parse_failure_exits_witness :
  main int_literal sample_args world_with_bad_csv
  = ([ReadCsv "sender-ss.csv";
      Print "Error reading CSV file: Error tokenizing data. C error: EOF inside string"],
     SysExit 1) /\
  exit_status (main int_literal sample_args world_with_bad_csv).2 <> 0.
Proof.
  apply (parse_failure_exits int_literal world_with_bad_csv sample_args
           "Error tokenizing data. C error: EOF inside string");
    reflexivity.
Defined.

End PlotCsvProps.

(** ** Properties of the iperf3 stream plotter *)

Module PlotIperf3Props.
Import PlotIperf3.

(** *** [range], slices and chunks *)

(** [ceil_div n c] is the least number of steps of [c] that cover [n]. *)
Lemma ceil_div_spec n c :
  0 < c -> (ceil_div n c - 1) * c < n <= ceil_div n c * c.
Proof.
  intros Hc. unfold ceil_div.
  pose proof (Z.div_mod (n + c - 1) c ltac:(lia)) as Hdm.
  pose proof (Z.mod_pos_bound (n + c - 1) c Hc) as Hmod.
  nia.
Qed.

Lemma ceil_div_nonpos n c : 0 < c -> n <= 0 -> ceil_div n c <= 0.
Proof. intros Hc Hn. pose proof (ceil_div_spec n c Hc). nia. Qed.

Lemma ceil_div_step n c : 0 < c -> ceil_div n c = 1 + ceil_div (n - c) c.
Proof.
  intros Hc. unfold ceil_div.
  replace (n + c - 1) with (n - c + c - 1 + 1 * c) by lia.
  rewrite Z.div_add by lia. lia.
Qed.

Lemma ceil_div_pos n c : 0 < c -> 0 < n -> 0 < ceil_div n c.
Proof. intros Hc Hn. pose proof (ceil_div_spec n c Hc). nia. Qed.

(** With fuel for the whole distance, the upward range is the arithmetic
    progression from [i] below [stop]. *)
Lemma range_up_progression fuel i stop step :
  0 < step -> stop - i <= Z.of_nat fuel ->
  range_up fuel i stop step
  = (fun k : nat => i + Z.of_nat k * step)
      <$> seq 0 (Z.to_nat (ceil_div (stop - i) step)).
Proof.
  intros Hstep. revert i.
  induction fuel as [| fuel IH]; intros i Hfuel; simpl.
  - pose proof (ceil_div_nonpos (stop - i) step Hstep ltac:(lia)).
    by replace (Z.to_nat _) with 0%nat by lia.
  - destruct (Z.ltb_spec i stop) as [Hlt | Hge].
    + rewrite (ceil_div_step (stop - i) step Hstep).
      replace (stop - i - step) with (stop - (i + step)) by lia.
      pose proof (ceil_div_spec (stop - (i + step)) step Hstep).
      assert (0 <= ceil_div (stop - (i + step)) step) by nia.
      rewrite Z2Nat.inj_add by lia.
      change (Z.to_nat 1) with 1%nat. simpl.
      f_equal; [lia |].
      rewrite IH by lia. rewrite <- fmap_S_seq, <- list_fmap_compose.
      apply list_fmap_ext. intros _ k _. simpl. lia.
    + pose proof (ceil_div_nonpos (stop - i) step Hstep ltac:(lia)).
      by replace (Z.to_nat _) with 0%nat by lia.
Qed.

(** [range(0, n, c)] for a positive step. *)
Lemma py_range_chunks n c :
  0 < c -> 0 <= n ->
  py_range 0 n c
  = Some ((fun k : nat => Z.of_nat k * c) <$> seq 0 (Z.to_nat (ceil_div n c))).
Proof.
  intros Hc Hn. unfold py_range.
  destruct (Z.eqb_spec c 0) as [? | _]; [lia |].
  destruct (Z.ltb_spec 0 c) as [_ | ?]; [| lia].
  rewrite range_up_progression by lia.
  by rewrite Z.sub_0_r.
Qed.

(** A slice of [c] elements from a non-negative position. *)
Lemma py_slice_chunk {A} (l : list A) (k : nat) (c : Z) :
  0 <= c ->
  py_slice l (Z.of_nat k * c) (Z.of_nat k * c + c) = chunk c l k.
Proof.
  intros Hc. unfold py_slice, chunk, slice_bound.
  set (len := Z.of_nat (length l)).
  destruct (Z.ltb_spec (Z.of_nat k * c) 0) as [? | _]; [nia |].
  destruct (Z.ltb_spec (Z.of_nat k * c + c) 0) as [? | _]; [nia |].
  replace (k * Z.to_nat c)%nat with (Z.to_nat (Z.of_nat k * c)) by nia.
  destruct (Z.le_gt_cases len (Z.of_nat k * c)) as [Hout | Hin].
  - rewrite !Z.min_r by lia. rewrite Z.sub_diag. simpl.
    rewrite (drop_ge l (Z.to_nat (Z.of_nat k * c))) by lia.
    by rewrite take_nil.
  - rewrite (Z.min_l (Z.of_nat k * c)) by lia.
    destruct (Z.le_gt_cases (Z.of_nat k * c + c) len) as [Hfull | Hshort].
    + rewrite Z.min_l by lia. f_equal. lia.
    + rewrite Z.min_r by lia.
      rewrite !take_ge; [done | |]; rewrite length_drop; lia.
Qed.

Lemma chunk_length {A} (l : list A) (c : Z) (k : nat) :
  length (chunk c l k) = (Z.to_nat c `min` (length l - k * Z.to_nat c))%nat.
Proof. unfold chunk. by rewrite length_take, length_drop. Qed.

(** Every index below the number of chunks starts inside the list. *)
Lemma chunk_index_inside (n : nat) (c : Z) (k : nat) :
  0 < c -> (k < Z.to_nat (ceil_div (Z.of_nat n) c))%nat ->
  (k * Z.to_nat c < n)%nat.
Proof.
  intros Hc Hk. pose proof (ceil_div_spec (Z.of_nat n) c Hc). nia.
Qed.

Lemma chunk_nonempty {A} (l : list A) (c : Z) (k : nat) :
  0 < c -> (k * Z.to_nat c < length l)%nat -> chunk c l k <> [].
Proof.
  intros Hc Hk Hnil. apply (f_equal length) in Hnil.
  rewrite chunk_length in Hnil. simpl in Hnil. lia.
Qed.

(** The chunks are contiguous and in order: put end to end, the first [m]
    of them are the first [m * c] elements. *)
Lemma concat_chunk_prefix {A} (l : list A) (c : Z) (m : nat) :
  concat (chunk c l <$> seq 0 m) = take (m * Z.to_nat c) l.
Proof.
  induction m as [| m IH]; [done |].
  rewrite seq_S, fmap_app, concat_app, IH. simpl.
  rewrite app_nil_r. unfold chunk. rewrite take_take_drop. f_equal. lia.
Qed.

Lemma concat_chunks {A} (l : list A) (c : Z) : 0 < c -> concat (chunks c l) = l.
Proof.
  intros Hc. unfold chunks. rewrite concat_chunk_prefix.
  apply take_ge. pose proof (ceil_div_spec (Z.of_nat (length l)) c Hc). nia.
Qed.

Lemma length_chunks {A} (l : list A) (c : Z) :
  length (chunks c l) = Z.to_nat (ceil_div (Z.of_nat (length l)) c).
Proof. unfold chunks. by rewrite length_fmap, length_seq. Qed.

(** *** [compute_averages] *)

Lemma np_mean_nonempty l : l <> [] -> np_mean l = Some (arith_mean l).
Proof. by destruct l. Qed.

(** The loop, run over indices whose time chunk is not empty, appends one
    bucket per index to each of the three lists. *)
Lemma fold_average_chunk data c (ks : list nat) acc :
  0 < c ->
  Forall (fun k => (k * Z.to_nat c < length (time data))%nat) ks ->
  fold_left (average_chunk data c) ((fun k : nat => Z.of_nat k * c) <$> ks) acc
  = Series
      (time acc ++ ((fun k => np_mean (chunk c (time data) k)) <$> ks))
      (rtt acc ++ ((fun k => np_sub (np_mean (chunk c (rtt data) k)) (inject_Z 45)) <$> ks))
      (bps acc ++ ((fun k => np_mean (chunk c (bps data) k)) <$> ks)).
Proof.
  intros Hc Hks. revert acc.
  induction Hks as [| k ks Hk _ IH]; intros acc; simpl.
  - rewrite !app_nil_r. by destruct acc.
  - rewrite IH. unfold average_chunk.
    rewrite !py_slice_chunk by lia.
    pose proof (chunk_nonempty (time data) c k Hc Hk) as Hne.
    destruct (chunk c (time data) k) as [| x ch] eqn:Hch; [done |].
    simpl. by rewrite <- !app_assoc.
Qed.

(** [compute_averages] with a positive chunk size returns, and returns one
    bucket per chunk of the time list. *)
Lemma compute_averages_buckets data c :
  0 < c ->
  compute_averages data c
  = Some (Series
      ((fun k => np_mean (chunk c (time data) k))
         <$> seq 0 (Z.to_nat (ceil_div (Z.of_nat (length (time data))) c)))
      ((fun k => np_sub (np_mean (chunk c (rtt data) k)) (inject_Z 45))
         <$> seq 0 (Z.to_nat (ceil_div (Z.of_nat (length (time data))) c)))
      ((fun k => np_mean (chunk c (bps data) k))
         <$> seq 0 (Z.to_nat (ceil_div (Z.of_nat (length (time data))) c)))).
Proof.
  intros Hc. unfold compute_averages.
  rewrite py_range_chunks by lia. simpl.
  rewrite fold_average_chunk; [done | done |].
  apply Forall_forall. intros k Hk. apply elem_of_seq in Hk.
  apply chunk_index_inside with (c := c); [done | lia].
Qed.

(** With the three lists of one length, the buckets are the means over the
    partition of each list into chunks. *)
Lemma compute_averages_chunks data c :
  0 < c ->
  length (rtt data) = length (time data) ->
  length (bps data) = length (time data) ->
  compute_averages data c
  = Some (Series
      (np_mean <$> chunks c (time data))
      ((fun ch => np_sub (np_mean ch) (inject_Z 45)) <$> chunks c (rtt data))
      (np_mean <$> chunks c (bps data))).
Proof.
  intros Hc Hr Hb. rewrite compute_averages_buckets by done.
  unfold chunks. rewrite Hr, Hb. by rewrite <- !list_fmap_compose.
Qed.

(** The three chunks of a list of 25 elements. *)
Lemma chunks_of_25 {A} (l : list A) :
  length l = 25%nat ->
  chunk 10 l 0 = take 10 l /\
  chunk 10 l 1 = take 10 (drop 10 l) /\
  chunk 10 l 2 = drop 20 l.
Proof.
  intros Hl. unfold chunk. repeat split.
  change (Z.to_nat 10) with 10%nat. simpl Nat.mul.
  apply take_ge. rewrite length_drop. lia.
Qed.

Lemma mean_of_25 (l : list Q) :
  length l = 25%nat ->
  np_mean (chunk 10 l 0) = Some (arith_mean (take 10 l)) /\
  np_mean (chunk 10 l 1) = Some (arith_mean (take 10 (drop 10 l))) /\
  np_mean (chunk 10 l 2) = Some (arith_mean (drop 20 l)).
Proof.
  intros Hl. destruct (chunks_of_25 l Hl) as (<- & <- & <-).
  repeat split; apply np_mean_nonempty, chunk_nonempty; try done;
    rewrite Hl; change (Z.to_nat 10) with 10%nat; lia.
Qed.

Lemma split_25 {A} (l : list A) :
  length l = 25%nat ->
  l = take 10 l ++ take 10 (drop 10 l) ++ drop 20 l /\
  length (take 10 l) = 10%nat /\
  length (take 10 (drop 10 l)) = 10%nat /\
  length (drop 20 l) = 5%nat.
Proof.
  intros Hl. split.
  - rewrite <- (take_drop 10 l) at 1. f_equal.
    rewrite <- (take_drop 10 (drop 10 l)) at 1. by rewrite drop_drop.
  - rewrite !length_take, !length_drop. lia.
Qed.

(** C2.  A stream of exactly 25 samples with [chunk_size = 10] gives exactly
    three buckets.  The samples split, in order and without overlap, into
    chunks of 10, 10 and 5; the [time] and [bps] of a bucket are the
    arithmetic means of its chunk, its [rtt] is the arithmetic mean of its
    chunk minus 45. *)
Theorem averages_of_25_samples (data : series Q) :
  length (time data) = 25%nat ->
  length (rtt data) = 25%nat ->
  length (bps data) = 25%nat ->
  exists t1 t2 t3 r1 r2 r3 b1 b2 b3,
    time data = t1 ++ t2 ++ t3 /\
    rtt data = r1 ++ r2 ++ r3 /\
    bps data = b1 ++ b2 ++ b3 /\
    (length t1 = 10 /\ length t2 = 10 /\ length t3 = 5)%nat /\
    (length r1 = 10 /\ length r2 = 10 /\ length r3 = 5)%nat /\
    (length b1 = 10 /\ length b2 = 10 /\ length b3 = 5)%nat /\
    compute_averages data 10
    = Some (Series
        [Some (arith_mean t1); Some (arith_mean t2); Some (arith_mean t3)]
        [Some (arith_mean r1 - inject_Z 45)%Q;
         Some (arith_mean r2 - inject_Z 45)%Q;
         Some (arith_mean r3 - inject_Z 45)%Q]
        [Some (arith_mean b1); Some (arith_mean b2); Some (arith_mean b3)]).
Proof.
  intros Ht Hr Hb.
  exists (take 10 (time data)), (take 10 (drop 10 (time data))), (drop 20 (time data)).
  exists (take 10 (rtt data)), (take 10 (drop 10 (rtt data))), (drop 20 (rtt data)).
  exists (take 10 (bps data)), (take 10 (drop 10 (bps data))), (drop 20 (bps data)).
  destruct (split_25 _ Ht) as (Hts & ? & ? & ?).
  destruct (split_25 _ Hr) as (Hrs & ? & ? & ?).
  destruct (split_25 _ Hb) as (Hbs & ? & ? & ?).
  do 6 (split; [done |]).
  rewrite compute_averages_buckets by lia. rewrite Ht.
  change (Z.to_nat (ceil_div (Z.of_nat 25) 10)) with 3%nat.
  destruct (mean_of_25 _ Ht) as (Ht1 & Ht2 & Ht3).
  destruct (mean_of_25 _ Hr) as (Hr1 & Hr2 & Hr3).
  destruct (mean_of_25 _ Hb) as (Hb1 & Hb2 & Hb3).
  cbn [seq fmap list_fmap].
  by rewrite Ht1, Ht2, Ht3, Hr1, Hr2, Hr3, Hb1, Hb2, Hb3.
Qed.

Lemma averages_of_25_samples_witness :
  exists t1 t2 t3 r1 r2 r3 b1 b2 b3,
    time sample_stream = t1 ++ t2 ++ t3 /\
    rtt sample_stream = r1 ++ r2 ++ r3 /\
    bps sample_stream = b1 ++ b2 ++ b3 /\
    (length t1 = 10 /\ length t2 = 10 /\ length t3 = 5)%nat /\
    (length r1 = 10 /\ length r2 = 10 /\ length r3 = 5)%nat /\
    (length b1 = 10 /\ length b2 = 10 /\ length b3 = 5)%nat /\
    compute_averages sample_stream 10
    = Some (Series
        [Some (arith_mean t1); Some (arith_mean t2); Some (arith_mean t3)]
        [Some (arith_mean r1 - inject_Z 45)%Q;
         Some (arith_mean r2 - inject_Z 45)%Q;
         Some (arith_mean r3 - inject_Z 45)%Q]
        [Some (arith_mean b1); Some (arith_mean b2); Some (arith_mean b3)]).
Proof.
  apply (averages_of_25_samples sample_stream); reflexivity.
Defined.

(** C9.  With [chunk_size >= 1] and the three lists of one length [n],
    [compute_averages] returns lists of [ceil(n / chunk_size)] buckets each,
    [ceil_div n c] being the least number of steps of [c] that cover [n];
    an empty series gives empty lists; no bucket is [nan]; and every chunk
    that the loop cuts is non-empty, so the guard [if chunk_time] never
    skips a step. *)
Theorem compute_averages_length (data : series Q) (c : Z) :
  1 <= c ->
  length (rtt data) = length (time data) ->
  length (bps data) = length (time data) ->
  (ceil_div (Z.of_nat (length (time data))) c - 1) * c
    < Z.of_nat (length (time data))
    <= ceil_div (Z.of_nat (length (time data))) c * c /\
  exists avg_data, compute_averages data c = Some avg_data /\
    Z.of_nat (length (time avg_data)) = ceil_div (Z.of_nat (length (time data))) c /\
    Z.of_nat (length (rtt avg_data)) = ceil_div (Z.of_nat (length (time data))) c /\
    Z.of_nat (length (bps avg_data)) = ceil_div (Z.of_nat (length (time data))) c /\
    (time data = [] -> avg_data = Series [] [] []) /\
    Forall is_Some (time avg_data) /\
    Forall is_Some (rtt avg_data) /\
    Forall is_Some (bps avg_data) /\
    (forall idx i,
        py_range 0 (Z.of_nat (length (time data))) c = Some idx -> i ∈ idx ->
        py_slice (time data) i (i + c) <> [] /\
        py_slice (rtt data) i (i + c) <> [] /\
        py_slice (bps data) i (i + c) <> []).
Proof.
  intros Hc Hr Hb.
  split; [apply ceil_div_spec; lia |].
  set (n := length (time data)) in *.
  set (m := Z.to_nat (ceil_div (Z.of_nat n) c)).
  assert (Hm : Z.of_nat m = ceil_div (Z.of_nat n) c).
  { pose proof (ceil_div_spec (Z.of_nat n) c ltac:(lia)). unfold m. nia. }
  assert (Hin : forall k, (k < m)%nat -> (k * Z.to_nat c < n)%nat).
  { intros k Hk. apply chunk_index_inside with (c := c); [lia | done]. }
  eexists. split; [apply compute_averages_buckets; lia |].
  fold n. fold m. simpl.
  rewrite !length_fmap, !length_seq.
  do 3 (split; [done |]). split.
  { intros Hnil. assert (m = 0%nat) as ->; [| done].
    unfold m, n. rewrite Hnil. simpl length.
    pose proof (ceil_div_nonpos (Z.of_nat 0) c ltac:(lia) ltac:(lia)). lia. }
  assert (Hsome : forall l : list Q, length l = n ->
            forall k, (k < m)%nat -> is_Some (np_mean (chunk c l k))).
  { intros l Hl k Hk. rewrite np_mean_nonempty; [done |].
    apply chunk_nonempty; [lia |]. rewrite Hl. by apply Hin. }
  split; [| split; [| split]].
  - apply Forall_fmap, Forall_forall. intros k Hk%elem_of_seq.
    apply Hsome; [done | lia].
  - apply Forall_fmap, Forall_forall. intros k Hk%elem_of_seq. simpl.
    destruct (Hsome (rtt data) Hr k ltac:(lia)) as [x ->]. done.
  - apply Forall_fmap, Forall_forall. intros k Hk%elem_of_seq.
    apply Hsome; [done | lia].
  - intros idx i Hidx Hi.
    rewrite py_range_chunks in Hidx by lia. injection Hidx as <-.
    apply list_elem_of_fmap in Hi as (k & -> & Hk%elem_of_seq).
    fold m in Hk.
    rewrite !py_slice_chunk by lia.
    repeat split; (apply chunk_nonempty; [lia |]);
      rewrite ?Hr, ?Hb; apply Hin; lia.
Qed.

Lemma compute_averages_length_witness :
  (ceil_div (Z.of_nat (length (time sample_stream))) 10 - 1) * 10
    < Z.of_nat (length (time sample_stream))
    <= ceil_div (Z.of_nat (length (time sample_stream))) 10 * 10 /\
  exists avg_data, compute_averages sample_stream 10 = Some avg_data /\
    Z.of_nat (length (time avg_data)) = ceil_div (Z.of_nat (length (time sample_stream))) 10 /\
    Z.of_nat (length (rtt avg_data)) = ceil_div (Z.of_nat (length (time sample_stream))) 10 /\
    Z.of_nat (length (bps avg_data)) = ceil_div (Z.of_nat (length (time sample_stream))) 10 /\
    (time sample_stream = [] -> avg_data = Series [] [] []) /\
    Forall is_Some (time avg_data) /\
    Forall is_Some (rtt avg_data) /\
    Forall is_Some (bps avg_data) /\
    (forall idx i,
        py_range 0 (Z.of_nat (length (time sample_stream))) 10 = Some idx -> i ∈ idx ->
        py_slice (time sample_stream) i (i + 10) <> [] /\
        py_slice (rtt sample_stream) i (i + 10) <> [] /\
        py_slice (bps sample_stream) i (i + 10) <> []).
Proof.
  apply (compute_averages_length sample_stream 10); [lia | reflexivity | reflexivity].
Defined.

(** *** The collection loop *)

Lemma samples_of_snoc id l p :
  samples_of id (l ++ [p])
  = if decide (socket p.2 = id) then samples_of id l ++ [p] else samples_of id l.
Proof.
  unfold samples_of. rewrite filter_app.
  destruct (decide (socket p.2 = id)) as [Hid | Hid].
  - by rewrite filter_cons_True.
  - rewrite filter_cons_False by done. apply app_nil_r.
Qed.

Lemma series_of_snoc g start s :
  series_of (g ++ [(start, s)])
  = append_bps (bps_of s) (append_rtt (rtt_of s) (append_time start (series_of g))).
Proof. unfold series_of. by rewrite !fmap_app. Qed.

(** One turn of the inner loop keeps the dictionary in step with the samples
    seen so far. *)
Lemma collect_stream_grouped itv (sd : gmap Z (series Q)) s seen :
  (forall id, sd !! id = grouped id seen) ->
  forall id, collect_stream itv sd s !! id = grouped id (seen ++ [(sum_start itv, s)]).
Proof.
  intros Hinv id. unfold collect_stream, grouped.
  rewrite samples_of_snoc. simpl.
  destruct (decide (socket s = id)) as [<- | Hne].
  - rewrite !lookup_alter_eq.
    pose proof (Hinv (socket s)) as Hs. unfold grouped in Hs.
    destruct (samples_of (socket s) seen) as [| p g] eqn:Hg.
    + rewrite Hs, lookup_insert_eq. reflexivity.
    + rewrite Hs. simpl. rewrite Hs. simpl.
      f_equal. symmetry. apply (series_of_snoc (p :: g)).
  - rewrite !lookup_alter_ne by done.
    pose proof (Hinv id) as Hid. unfold grouped in Hid. rewrite <- Hid.
    destruct (sd !! socket s); [done |].
    by rewrite lookup_insert_ne.
Qed.

Lemma collect_streams_grouped itv ss (sd : gmap Z (series Q)) seen :
  (forall id, sd !! id = grouped id seen) ->
  forall id, fold_left (collect_stream itv) ss sd !! id
             = grouped id (seen ++ ((fun s => (sum_start itv, s)) <$> ss)).
Proof.
  revert sd seen. induction ss as [| s ss IH]; intros sd seen Hinv id; simpl.
  - by rewrite app_nil_r.
  - rewrite cons_middle, app_assoc. apply IH.
    by apply collect_stream_grouped.
Qed.

Lemma collect_intervals_grouped itvs (sd : gmap Z (series Q)) seen :
  (forall id, sd !! id = grouped id seen) ->
  forall id, fold_left collect_interval itvs sd !! id
             = grouped id (seen ++
                 (itvs ≫= fun itv => (fun s => (sum_start itv, s)) <$> streams itv)).
Proof.
  revert sd seen. induction itvs as [| itv itvs IH]; intros sd seen Hinv id; simpl.
  - by rewrite app_nil_r.
  - rewrite app_assoc. apply IH.
    by apply collect_streams_grouped.
Qed.

Lemma collect_grouped iperf_data id :
  collect iperf_data !! id = grouped id (samples iperf_data).
Proof.
  unfold collect, samples.
  by rewrite (collect_intervals_grouped _ ∅ []).
Qed.

(** The three lists of a collected series have one length. *)
Lemma collect_lengths iperf_data id d :
  collect iperf_data !! id = Some d ->
  length (rtt d) = length (time d) /\ length (bps d) = length (time d).
Proof.
  rewrite collect_grouped. unfold grouped.
  destruct (samples_of id (samples iperf_data)); [done |].
  intros [= <-]. simpl. by rewrite !length_fmap.
Qed.

(** So the plotting loops, which call [compute_averages(data, chunk_size=10)]
    on every collected series, always get averages back. *)
Lemma collected_series_average iperf_data id d :
  collect iperf_data !! id = Some d ->
  compute_averages d 10
  = Some (Series
      (np_mean <$> chunks 10 (time d))
      ((fun ch => np_sub (np_mean ch) (inject_Z 45)) <$> chunks 10 (rtt d))
      (np_mean <$> chunks 10 (bps d))).
Proof.
  intros Hd. destruct (collect_lengths _ _ _ Hd) as [Hr Hb].
  by apply compute_averages_chunks.
Qed.

Lemma samples_origin iperf_data p :
  p ∈ samples iperf_data <->
  exists itv, itv ∈ default [] (intervals iperf_data) /\
    p.1 = sum_start itv /\ p.2 ∈ streams itv.
Proof.
  unfold samples. rewrite list_elem_of_bind. split.
  - intros (itv & (s & -> & Hs)%list_elem_of_fmap & Hitv). by exists itv.
  - intros (itv & Hitv & Hstart & Hs). exists itv. split; [| done].
    apply list_elem_of_fmap. exists p.2. split; [| done].
    destruct p as [start s]. simpl in *. by subst.
Qed.

(** C3.  Grouping by socket.  After the collection loop the dictionary
    holds under [id] the series made of exactly the samples that carry
    socket [id], taken over all intervals in reading order, one entry per
    sample, the [time] of each being the [sum.start] of its interval; there
    is an entry for [id] exactly when some sample carries it, so different
    sockets have different series. *)
Theorem grouping_by_socket (iperf_data : report) (id : Z) :
  collect iperf_data !! id = grouped id (samples iperf_data) /\
  (forall d, collect iperf_data !! id = Some d ->
     time d = (fun p => p.1) <$> samples_of id (samples iperf_data) /\
     length (rtt d) = length (samples_of id (samples iperf_data)) /\
     length (bps d) = length (samples_of id (samples iperf_data))) /\
  (is_Some (collect iperf_data !! id) <->
     exists p, p ∈ samples iperf_data /\ socket p.2 = id) /\
  (forall p, p ∈ samples_of id (samples iperf_data) <->
     socket p.2 = id /\
     exists itv, itv ∈ default [] (intervals iperf_data) /\
       p.1 = sum_start itv /\ p.2 ∈ streams itv).
Proof.
  pose proof (collect_grouped iperf_data id) as Hc.
  split; [done |]. split; [| split].
  - intros d. rewrite Hc. unfold grouped.
    destruct (samples_of id (samples iperf_data)) as [| p g]; [done |].
    intros [= <-]. simpl. by rewrite !length_fmap.
  - rewrite Hc. unfold grouped.
    destruct (samples_of id (samples iperf_data)) as [| p g] eqn:Hg.
    + split; [by intros [? ?] |].
      intros (p & Hp & Hid). exfalso.
      by apply (filter_nil_not_elem_of _ _ p Hg).
    + split; [| by eexists].
      intros _. exists p.
      assert (Hp : p ∈ samples_of id (samples iperf_data))
        by (rewrite Hg; apply list_elem_of_here).
      apply list_elem_of_filter in Hp as [? ?]. done.
  - intros p. unfold samples_of. rewrite list_elem_of_filter.
    by rewrite samples_origin.
Qed.

(** C5.  Conversion at collection time.  The [k]-th sample of socket [id]
    sits at index [k] of the series of [id] with its [rtt] divided by 1000,
    an absent [rtt] counting as 0, and its [bits_per_second] divided by
    1000000. *)
Theorem conversion_at_collection (iperf_data : report) (id : Z)
    (d : series Q) (k : nat) (p : Q * stream) :
  collect iperf_data !! id = Some d ->
  samples_of id (samples iperf_data) !! k = Some p ->
  rtt d !! k = Some (match stream_rtt p.2 with
                     | Some x => x / inject_Z 1000
                     | None => inject_Z 0 / inject_Z 1000
                     end)%Q /\
  bps d !! k = Some (bits_per_second p.2 / inject_Z 1000000)%Q.
Proof.
  rewrite collect_grouped. unfold grouped. intros Hd Hk.
  destruct (samples_of id (samples iperf_data)) as [| q g]; [done |].
  injection Hd as <-. unfold series_of. cbn [rtt bps].
  rewrite !list_lookup_fmap, Hk. simpl. split; [| done].
  unfold rtt_of. by destruct (stream_rtt p.2).
Qed.

Lemma conversion_at_collection_witness :
  rtt (Series [inject_Z 0; inject_Z 1]
         [inject_Z 49800 / inject_Z 1000; inject_Z 0 / inject_Z 1000]
         [inject_Z 6000000 / inject_Z 1000000;
          inject_Z 7000000 / inject_Z 1000000])%Q !! 1%nat
  = Some (inject_Z 0 / inject_Z 1000)%Q /\
  bps (Series [inject_Z 0; inject_Z 1]
         [inject_Z 49800 / inject_Z 1000; inject_Z 0 / inject_Z 1000]
         [inject_Z 6000000 / inject_Z 1000000;
          inject_Z 7000000 / inject_Z 1000000])%Q !! 1%nat
  = Some (inject_Z 7000000 / inject_Z 1000000)%Q.
Proof.
  apply (conversion_at_collection sample_report 7 _ 1
           (inject_Z 1, {| socket := 7; stream_rtt := None;
                           bits_per_second := inject_Z 7000000 |}));
    vm_compute; reflexivity.
Defined.

End PlotIperf3Props.

(** ** More on the CSV metrics plotter: what processing keeps *)

Module PlotCsvFrame.
Import PlotCsv PlotCsvProps.

Section Frame.

Variable str_to_float : string -> option Q.

Local Abbreviation to_numeric := (to_numeric str_to_float).
Local Abbreviation process_data := (process_data str_to_float).

Lemma scale_cell_isna k c : isna (scale_cell k c) = isna c.
Proof. by destruct c. Qed.

Lemma scale_cell_numeric k c : numeric_cell c -> numeric_cell (scale_cell k c).
Proof. by destruct c. Qed.

Lemma coerce_of_numeric c : numeric_cell c -> coerce str_to_float c = c.
Proof. by destruct c. Qed.

Lemma to_numeric_of_numeric s : Forall numeric_cell s -> to_numeric s = s.
Proof.
  induction 1 as [| c s Hc _ IH]; simpl; [done |].
  by rewrite coerce_of_numeric, IH.
Qed.

(** Scaling goes through the fill. *)
Lemma ffill_from_scale k last s :
  ffill_from (scale_cell k last) (scale_cell k <$> s)
  = scale_cell k <$> ffill_from last s.
Proof.
  revert last. induction s as [| c s IH]; intros last; simpl; [done |].
  rewrite scale_cell_isna. destruct (isna c); simpl; by rewrite IH.
Qed.

(** After a valid cell nothing is missing, whatever came in from the left. *)
Lemma ffill_from_valid_start a b s :
  isna b = false -> ffill_from a (ffill_from b s) = ffill_from b s.
Proof.
  intros Hb. revert a b Hb.
  induction s as [| c s IH]; intros a b Hb; simpl; [done |].
  destruct (isna c) eqn:Hc; simpl.
  - rewrite Hb. f_equal. by apply IH.
  - rewrite Hc. f_equal. by apply IH.
Qed.

Lemma ffill_idemp s : ffill (ffill s) = ffill s.
Proof.
  unfold ffill. induction s as [| c s IH]; simpl; [done |].
  destruct (isna c) eqn:Hc; simpl.
  - by rewrite IH.
  - rewrite Hc. f_equal. by apply ffill_from_valid_start.
Qed.

(** In a filled column the missing cells come first. *)
Lemma ffill_from_no_gap last s i j v :
  ffill_from last s !! j = Some v -> isna v = false ->
  (j <= i < length s)%nat ->
  exists v', ffill_from last s !! i = Some v' /\ isna v' = false.
Proof.
  revert last i j. induction s as [| c s IH]; intros last i j Hj Hv Hij;
    simpl in *; [lia |].
  assert (Hall : forall b, isna b = false -> forall n, (n < length s)%nat ->
            exists v', ffill_from b s !! n = Some v' /\ isna v' = false).
  { clear. intros b Hb n. revert b Hb n.
    induction s as [| d s IHs]; intros b Hb n Hn; simpl in *; [lia |].
    destruct (isna d) eqn:Hd; destruct n as [| n]; simpl; eauto with lia. }
  destruct (isna c) eqn:Hc.
  - destruct j as [| j]; simpl in Hj.
    + injection Hj as ->. destruct i as [| i]; simpl; [eauto |].
      apply Hall; [done | lia].
    + destruct i as [| i]; [lia |]. simpl. apply (IH _ i j); [done | done | lia].
  - destruct i as [| i]; simpl; [eauto |]. apply Hall; [done | lia].
Qed.

Local Ltac with_frame df out Hrun Hout :=
  destruct (process_data_frame str_to_float df) as (out & Hrun & Hout);
  exists out; split; [exact Hrun |].

(** Processing neither drops nor adds rows: every column of the processed
    frame is as long as it was read. *)
Theorem process_data_keeps_rows (df : DataFrame) :
  exists out, process_data df = Some out /\
    forall c, length (out c) = length (df c).
Proof.
  with_frame df out Hrun Hout. intros c. rewrite Hout.
  unfold ffill, to_numeric, PlotCsv.to_numeric.
  repeat case_decide;
    rewrite ?length_fmap, ?ffill_from_length, ?length_map; done.
Qed.

(** After processing, the seven numeric columns hold numbers and missing
    markers only: no text is left for the plots to choke on. *)
Theorem processed_numeric_columns (df : DataFrame) (col : column) :
  col ∈ numeric_columns ->
  exists out, process_data df = Some out /\
    Forall numeric_cell (out col).
Proof.
  intros Hcol. with_frame df out Hrun Hout. rewrite Hout.
  pose proof (numeric_not_sender col Hcol).
  assert (Forall numeric_cell (ffill (to_numeric (df col))))
    by (apply ffill_from_numeric; [done | apply to_numeric_numeric]).
  repeat case_decide; try done.
  apply Forall_fmap. eapply Forall_impl; [done |].
  intros c. apply scale_cell_numeric.
Qed.

(** In every column of the processed frame, the sender column included,
    the missing cells come before the first valid one: below a valid cell
    every cell is valid. *)
Theorem processed_gaps_lead (df : DataFrame) (c : column) (i j : nat) :
  (j <= i < length (df c))%nat ->
  exists out, process_data df = Some out /\
    forall v, out c !! j = Some v -> isna v = false ->
    exists v', out c !! i = Some v' /\ isna v' = false.
Proof.
  intros Hij. with_frame df out Hrun Hout. rewrite Hout. intros v.
  assert (Hnum : length (to_numeric (df c)) = length (df c))
    by apply length_map.
  repeat case_decide.
  - intros Hj Hv. by apply (ffill_from_no_gap _ _ i j v).
  - rewrite !list_lookup_fmap. intros Hj Hv.
    destruct (ffill (to_numeric (df c)) !! j) as [u |] eqn:Hu; [| done].
    injection Hj as <-. rewrite scale_cell_isna in Hv.
    destruct (ffill_from_no_gap _ _ i j u Hu Hv ltac:(lia)) as (u' & Hi & Hu').
    unfold ffill. rewrite Hi. simpl. eexists. split; [done |].
    by rewrite scale_cell_isna.
  - intros Hj Hv. apply (ffill_from_no_gap _ _ i j v); [done | done | lia].
Qed.

(** The fill never overwrites: a valid sender cell, and a cell of a numeric
    column other than the throughput that is a number after coercion, is in
    the processed frame what it was. *)
Theorem valid_cells_kept (df : DataFrame) (col : column) (i : nat) (v : cell) :
  col <> normalized_tput ->
  (if decide (col = sender) then df col else to_numeric (df col)) !! i = Some v ->
  isna v = false ->
  exists out, process_data df = Some out /\ out col !! i = Some v.
Proof.
  intros Hcol Hi Hv. with_frame df out Hrun Hout. rewrite Hout.
  repeat case_decide; try done; by apply ffill_from_valid.
Qed.

(** Processing a processed frame again changes one thing only: the
    throughput is divided by 1000 once more.  (The script processes once;
    the frame is updated in place, so a second call would rescale.) *)
Theorem process_data_twice (df : DataFrame) :
  exists out out2,
    process_data df = Some out /\
    process_data out = Some out2 /\
    (forall c, c <> normalized_tput -> out2 c = out c) /\
    out2 normalized_tput = scale_cell (inject_Z 1000) <$> out normalized_tput.
Proof.
  destruct (process_data_frame str_to_float df) as (out & Hrun & Hout).
  destruct (process_data_frame str_to_float out) as (out2 & Hrun2 & Hout2).
  exists out, out2. do 2 (split; [done |]).
  assert (Hfix : forall c, c <> sender ->
            ffill (to_numeric (out c)) = out c).
  { intros c Hc. rewrite Hout. case_decide; [done |].
    assert (Hn : Forall numeric_cell (ffill (to_numeric (df c))))
      by (apply ffill_from_numeric; [done | apply to_numeric_numeric]).
    case_decide.
    - rewrite to_numeric_of_numeric.
      + unfold ffill at 1. change NaN with (scale_cell (inject_Z 1000) NaN) at 1.
        rewrite ffill_from_scale. f_equal. apply ffill_idemp.
      + apply Forall_fmap. eapply Forall_impl; [done |].
        intros d. apply scale_cell_numeric.
    - rewrite to_numeric_of_numeric by done. apply ffill_idemp. }
  split.
  - intros c Hc. rewrite Hout2. case_decide as Hs.
    + subst c. rewrite Hout. simpl. apply ffill_idemp.
    + case_decide; [done |]. by apply Hfix.
  - rewrite Hout2. simpl. by rewrite Hfix.
Qed.

End Frame.

Lemma processed_numeric_columns_witness :
  rtt ∈ numeric_columns /\
  exists out, PlotCsv.process_data int_literal sample_frame = Some out /\
    Forall numeric_cell (out rtt).
Proof.
  assert (H : rtt ∈ numeric_columns) by (unfold numeric_columns; repeat constructor).
  split; [exact H |].
  exact (processed_numeric_columns int_literal sample_frame rtt H).
Defined.

Lemma processed_gaps_lead_witness :
  exists out, PlotCsv.process_data int_literal sample_frame = Some out /\
    forall v, out normalized_tput !! 1%nat = Some v -> isna v = false ->
    exists v', out normalized_tput !! 2%nat = Some v' /\ isna v' = false.
Proof.
  apply (processed_gaps_lead int_literal sample_frame normalized_tput 2 1).
  simpl. lia.
Defined.

Lemma valid_cells_kept_witness :
  exists out, PlotCsv.process_data int_literal sample_frame = Some out /\
    out rtt !! 0%nat = Some (Float (inject_Z 50)).
Proof.
  apply (valid_cells_kept int_literal sample_frame rtt 0 (Float (inject_Z 50)));
    [discriminate | reflexivity | reflexivity].
Defined.

End PlotCsvFrame.

(** ** More on the CSV metrics plotter: the script as a whole *)

Module PlotCsvScript.
Import PlotCsv PlotCsvProps.

Lemma replace_app old new a b :
  replace old new (a +:+ b) = replace old new a +:+ replace old new b.
Proof. induction a as [| c a IH]; simpl; [done | by rewrite IH]. Qed.

Lemma replace_join ws :
  replace " " "_" (join " " ws) = join "_" (replace " " "_" <$> ws).
Proof.
  induction ws as [| w ws IH]; [done |].
  destruct ws as [| w' ws]; [done |].
  change (join " " (w :: w' :: ws)) with (w +:+ " " +:+ join " " (w' :: ws)).
  rewrite !replace_app, IH. done.
Qed.

(** The title words of the command line are joined with single spaces, and
    the figure is saved under the words joined with underscores (spaces
    inside a word turned into underscores too) followed by [_plots.png]: a
    title given as several words and the same title given in quotes name the
    same file. *)
Theorem title_words_name_the_file (w : world) (args : Namespace) :
  isfile w (csv_path args) = true ->
  join " " (title args) <> "" ->
  parse_arguments args w
  = ([], Returns (csv_path args, join " " (title args))) /\
  output_image (join " " (title args))
  = join "_" (replace " " "_" <$> title args) +:+ "_plots.png".
Proof.
  intros Hfile Ht. split.
  - unfold parse_arguments, os_path_isfile, mbind, script_bind.
    by rewrite Hfile.
  - unfold output_image, safe_title. case_decide; [done |].
    by rewrite replace_join.
Qed.

Lemma title_words_name_the_file_witness :
  parse_arguments sample_args world_with_csv
  = ([], Returns ("sender-ss.csv", "Test Run 1")) /\
  output_image (join " " ["Test"; "Run"; "1"]) = "Test_Run_1_plots.png".
Proof.
  apply (title_words_name_the_file world_with_csv sample_args);
    [reflexivity | discriminate].
Defined.







Lemma no_char_append (c : Ascii.ascii) a b :
  (forall i, String.get i a <> Some c) ->
  (forall i, String.get i b <> Some c) ->
  forall i, String.get i (a +:+ b) <> Some c.
Proof.
  intros Ha Hb. induction a as [| x a IH]; simpl; [done |].
  intros [| i].
  - apply (Ha 0%nat).
  - apply IH. intros j. apply (Ha (S j)).
Qed.

Lemma no_space_after_replace s i :
  String.get i (replace " " "_" s) <> Some " "%char.
Proof.
  rewrite replace_spec. destruct (String.get i s) as [c |]; [| done]. simpl.
  destruct (Ascii.eqb_spec c " "); [done | congruence].
Qed.

(** Whatever the title, the name of the saved figure has no space in it. *)
Theorem output_image_has_no_space (t : string) (i : nat) :
  String.get i (output_image t) <> Some " "%char.
Proof.
  revert i. unfold output_image. apply no_char_append.
  - intros i. unfold safe_title. case_decide; [| apply no_space_after_replace].
    by do 10 (destruct i as [| i]; [done |]).
  - intros i. by do 11 (destruct i as [| i]; [done |]).
Qed.

End PlotCsvScript.

(** ** More on the iperf3 stream plotter: the script as a whole *)

Module PlotIperf3Script.
Import PlotIperf3 PlotIperf3Props.

(** *** Order of first occurrence *)

Lemma elem_of_first_seen ids x : x ∈ first_seen ids <-> x ∈ ids.
Proof.
  induction ids as [| id ids IH]; simpl; [done |].
  rewrite !elem_of_cons, list_elem_of_filter, IH.
  destruct (decide (x = id)) as [-> | Hne]; [by split; left |].
  split.
  - intros [? | [_ ?]]; [by left | by right].
  - intros [? | ?]; [done | by right].
Qed.

Lemma NoDup_first_seen ids : NoDup (first_seen ids).
Proof.
  induction ids as [| id ids IH]; simpl; constructor.
  - rewrite list_elem_of_filter. by intros [? _].
  - by apply NoDup_filter.
Qed.

Lemma first_seen_snoc ids x :
  first_seen (ids ++ [x])
  = if decide (x ∈ ids) then first_seen ids else first_seen ids ++ [x].
Proof.
  induction ids as [| id ids IH]; simpl; [done |].
  rewrite IH. clear IH.
  destruct (decide (x ∈ id :: ids)) as [Hin | Hout].
  - destruct (decide (x ∈ ids)) as [? | Hnot]; [done |].
    apply elem_of_cons in Hin as [-> | ?]; [| done].
    rewrite filter_app, filter_cons_False by (by intros ?).
    by rewrite app_nil_r.
  - apply not_elem_of_cons in Hout as [Hne Hout].
    rewrite decide_False by done.
    by rewrite filter_app, filter_cons_True.
Qed.

(** *** The dictionary in insertion order *)

Lemma samples_of_nil_iff id l : samples_of id l = [] <-> id ∉ socket_ids l.
Proof.
  unfold samples_of, socket_ids.
  induction l as [| p l IH]; simpl.
  - split; [intros _; apply not_elem_of_nil | done].
  - rewrite filter_cons, not_elem_of_cons, <- IH.
    destruct (decide (socket p.2 = id)) as [Heq | Hne].
    + split; [done | by intros [? _]].
    + split; [by intros ? | by intros [_ ?]].
Qed.

Lemma grouped_Some id l :
  id ∈ socket_ids l -> grouped id l = Some (series_of (samples_of id l)).
Proof.
  intros Hin. unfold grouped.
  destruct (samples_of id l) eqn:Hs; [| done].
  by apply samples_of_nil_iff in Hs.
Qed.

Lemma grouped_None id l : id ∉ socket_ids l -> grouped id l = None.
Proof. intros Hout%samples_of_nil_iff. unfold grouped. by rewrite Hout. Qed.

Lemma collect_sample_tracks d seen p :
  tracks d seen -> tracks (collect_sample d p) (seen ++ [p]).
Proof.
  intros [Hval Hkeys]. destruct p as [start s]. split; simpl.
  - intros id.
    apply (collect_stream_grouped {| streams := []; sum_start := start |}).
    exact Hval.
  - unfold socket_ids. rewrite fmap_app. simpl. rewrite first_seen_snoc.
    rewrite Hval, Hkeys. fold (socket_ids seen).
    destruct (decide (socket s ∈ socket_ids seen)) as [Hin | Hout].
    + by rewrite grouped_Some.
    + by rewrite grouped_None.
Qed.

Lemma fold_collect_sample_tracks l d seen :
  tracks d seen -> tracks (fold_left collect_sample l d) (seen ++ l).
Proof.
  revert d seen. induction l as [| p l IH]; intros d seen Hd; simpl.
  - by rewrite app_nil_r.
  - rewrite cons_middle, app_assoc. apply IH. by apply collect_sample_tracks.
Qed.

Lemma tracks_empty : tracks {| keys := []; values := ∅ |} [].
Proof. split; [intros id; apply lookup_empty | done]. Qed.

Lemma omap_all_Some {A B} (f : A -> option B) (g : A -> B) (l : list A) :
  (forall x, x ∈ l -> f x = Some (g x)) -> omap f l = g <$> l.
Proof.
  induction l as [| x l IH]; intros Hf; simpl; [done |].
  rewrite (Hf x) by apply list_elem_of_here.
  f_equal. apply IH. intros y Hy. apply Hf. by apply list_elem_of_further.
Qed.

Lemma tracks_items d seen :
  tracks d seen ->
  items d = (fun id => (id, series_of (samples_of id seen)))
              <$> first_seen (socket_ids seen).
Proof.
  intros [Hval Hkeys]. unfold items. rewrite Hkeys.
  apply omap_all_Some. intros id Hid.
  apply (proj1 (elem_of_first_seen _ _)) in Hid.
  rewrite Hval, grouped_Some; done.
Qed.

(** *** Reading a report that has all its keys *)

Lemma read_raw_of_stream itv s :
  read_stream (raw_of_interval itv) (raw_of_stream s) = inr (sum_start itv, s).
Proof. by destruct s. Qed.

Lemma collect_streams_keyed_raw_of itv d ss :
  collect_streams_keyed (raw_of_interval itv) d (raw_of_stream <$> ss)
  = inr (fold_left collect_sample ((fun s => (sum_start itv, s)) <$> ss) d).
Proof.
  revert d. induction ss as [| s ss IH]; intros d; [done |].
  rewrite !fmap_cons. cbn [collect_streams_keyed fold_left].
  by rewrite read_raw_of_stream, IH.
Qed.

Lemma collect_intervals_keyed_raw_of d itvs :
  collect_intervals_keyed d (raw_of_interval <$> itvs)
  = inr (fold_left collect_sample
           (itvs ≫= fun itv => (fun s => (sum_start itv, s)) <$> streams itv) d).
Proof.
  revert d. induction itvs as [| itv itvs IH]; intros d; [done |].
  rewrite fmap_cons, bind_cons. cbn [collect_intervals_keyed].
  change (Raw.streams (raw_of_interval itv))
    with (Some (raw_of_stream <$> streams itv)).
  cbv iota beta.
  rewrite collect_streams_keyed_raw_of, IH. by rewrite fold_left_app.
Qed.

Lemma collect_keyed_raw_of iperf_data :
  collect_keyed (raw_of iperf_data)
  = inr (fold_left collect_sample (samples iperf_data)
           {| keys := []; values := ∅ |}).
Proof.
  unfold collect_keyed, samples, raw_of. simpl.
  destruct (intervals iperf_data) as [itvs |]; simpl; [| done].
  apply collect_intervals_keyed_raw_of.
Qed.

(** On a report with all its keys the collection loop ends without
    [KeyError]; the dictionary it leaves has one key per socket id, in the
    order in which the ids first occur in the report, and iterating over it
    gives each id with the series of its samples.  It holds what the
    map-only model of the loop holds. *)
Theorem collect_keyed_in_order (iperf_data : report) :
  exists stream_data,
    collect_keyed (raw_of iperf_data) = inr stream_data /\
    values stream_data = collect iperf_data /\
    keys stream_data = first_seen (socket_ids (samples iperf_data)) /\
    NoDup (keys stream_data) /\
    (forall id, id ∈ keys stream_data <->
       exists p, p ∈ samples iperf_data /\ socket p.2 = id) /\
    items stream_data = stream_items iperf_data.
Proof.
  eexists. split; [apply collect_keyed_raw_of |].
  pose proof (fold_collect_sample_tracks (samples iperf_data) _ [] tracks_empty)
    as Htr.
  rewrite app_nil_l in Htr.
  set (d := fold_left collect_sample _ _) in *.
  destruct Htr as [Hval Hkeys]. split; [| split; [done | split; [| split]]].
  - apply map_eq. intros id. by rewrite Hval, collect_grouped.
  - rewrite Hkeys. apply NoDup_first_seen.
  - intros id. rewrite Hkeys, elem_of_first_seen.
    unfold socket_ids. rewrite list_elem_of_fmap. split.
    + intros (p & -> & Hp). by exists p.
    + intros (p & Hp & <-). by exists p.
  - by apply tracks_items.
Qed.

(** *** Missing keys *)

Lemma read_stream_keyed itv s :
  match read_stream itv s with
  | inr _ => keyed_stream itv s
  | inl key =>
      ~ keyed_stream itv s /\
      key ∈ ["socket"; "sum"; "start"; "bits_per_second"]
  end.
Proof.
  unfold read_stream, keyed_stream.
  destruct (Raw.socket s) as [id |].
  2: { split; [by intros [[? ?] _] | repeat constructor]. }
  destruct (Raw.sum itv) as [[start |] |].
  2, 3: split; [by intros (_ & _ & ? & ?) | repeat constructor].
  destruct (Raw.bits_per_second s) as [b |].
  - eauto.
  - split; [by intros (_ & [? ?] & _) | repeat constructor].
Qed.

Lemma collect_streams_keyed_keyed itv d ss :
  match collect_streams_keyed itv d ss with
  | inr _ => Forall (keyed_stream itv) ss
  | inl key =>
      ~ Forall (keyed_stream itv) ss /\
      key ∈ ["socket"; "sum"; "start"; "bits_per_second"]
  end.
Proof.
  revert d. induction ss as [| s ss IH]; intros d; simpl; [done |].
  pose proof (read_stream_keyed itv s) as Hs.
  destruct (read_stream itv s) as [key | p].
  - destruct Hs as [Hs Hkey]. split; [| done].
    intros Hall. by apply Forall_cons in Hall as [? _].
  - specialize (IH (collect_sample d p)).
    destruct (collect_streams_keyed itv (collect_sample d p) ss) as [key | d'].
    + destruct IH as [IH Hkey]. split; [| done].
      intros Hall. by apply Forall_cons in Hall as [_ ?].
    + by constructor.
Qed.

Lemma collect_intervals_keyed_keyed d itvs :
  match collect_intervals_keyed d itvs with
  | inr _ => Forall keyed_interval itvs
  | inl key =>
      ~ Forall keyed_interval itvs /\
      key ∈ ["streams"; "socket"; "sum"; "start"; "bits_per_second"]
  end.
Proof.
  revert d. induction itvs as [| itv itvs IH]; intros d; simpl; [done |].
  destruct (Raw.streams itv) as [ss |] eqn:Hss.
  2: { split; [| repeat constructor].
       intros Hall. apply Forall_cons in Hall as [(ss & Hs & _) _]. congruence. }
  pose proof (collect_streams_keyed_keyed itv d ss) as Hs.
  destruct (collect_streams_keyed itv d ss) as [key | d'].
  - destruct Hs as [Hs Hkey]. split; [| by apply list_elem_of_further].
    intros Hall. apply Forall_cons in Hall as [(ss' & Hs' & Hall) _].
    apply Hs. congruence.
  - specialize (IH d').
    destruct (collect_intervals_keyed d' itvs) as [key | d''].
    + destruct IH as [IH Hkey]. split; [| done].
      intros Hall. by apply Forall_cons in Hall as [_ ?].
    + constructor; [by exists ss | done].
Qed.

(** The collection loop ends with [KeyError] exactly when a key it indexes
    is missing: [streams] in an interval, [socket] or [bits_per_second] in a
    stream, [sum] or [start] in an interval that has at least one stream.  A
    missing [intervals] or [rtt] never raises, nor does a missing [sum] in an
    interval without streams. *)
Theorem collect_keyed_key_errors (iperf_data : Raw.report) :
  ((exists stream_data, collect_keyed iperf_data = inr stream_data) <->
     well_keyed iperf_data) /\
  (forall key, collect_keyed iperf_data = inl key ->
     key ∈ ["streams"; "socket"; "sum"; "start"; "bits_per_second"]).
Proof.
  unfold collect_keyed, well_keyed.
  pose proof (collect_intervals_keyed_keyed {| keys := []; values := ∅ |}
                (default [] (Raw.intervals iperf_data))) as H.
  destruct (collect_intervals_keyed _ _) as [key | d].
  - destruct H as [Hnot Hkey]. split.
    + split; [by intros [? ?] | done].
    + by intros ? [= <-].
  - split; [| done]. split; [done | eauto].
Qed.

(** An interval without streams needs no [sum]; the stream without
    [bits_per_second] in the next interval ends the script. *)
Example missing_key_run :
  collect_keyed report_missing_key = inl "bits_per_second".
Proof. reflexivity. Qed.

(** *** The plotting loops and the script *)

Lemma compute_averages_10 data :
  compute_averages data 10
  = Some (Series
      ((fun k => np_mean (chunk 10 (time data) k))
         <$> seq 0 (Z.to_nat (ceil_div (Z.of_nat (length (time data))) 10)))
      ((fun k => np_sub (np_mean (chunk 10 (rtt data) k)) (inject_Z 45))
         <$> seq 0 (Z.to_nat (ceil_div (Z.of_nat (length (time data))) 10)))
      ((fun k => np_mean (chunk 10 (bps data) k))
         <$> seq 0 (Z.to_nat (ceil_div (Z.of_nat (length (time data))) 10)))).
Proof. by apply compute_averages_buckets. Qed.

(** The plotting loop never raises and only plots. *)
Lemma plot_streams_returns word pick n its :
  (plot_streams word pick n its).2 = Returns tt /\
  saved (plot_streams word pick n its).1 = [] /\
  length (plot_streams word pick n its).1 = length its.
Proof.
  revert n. induction its as [| [id data] its IH]; intros n; [done |].
  cbn [plot_streams]. rewrite compute_averages_10.
  destruct (IH (S n)) as (Ho & Hs & Hl).
  destruct (plot_streams word pick (S n) its) as [tr o].
  cbn [fst snd length] in *. unfold saved in *. cbn [omap list_omap].
  by rewrite Hl.
Qed.

Lemma saved_app tr1 tr2 : saved (tr1 ++ tr2) = saved tr1 ++ saved tr2.
Proof. unfold saved. apply omap_app. Qed.

(** Given the dictionary, both figures are drawn and saved. *)
Lemma figures_returns its :
  (figures its).2 = Returns tt /\
  saved (figures its).1 = ["rtt_vs_time_cubic.png"; "tput_vs_time_cubic.png"] /\
  length (figures its).1 = (17 + 2 * length its)%nat.
Proof.
  unfold figures.
  destruct (plot_streams_returns "Stream" rtt 1 its) as (Ho1 & Hs1 & Hl1).
  destruct (plot_streams_returns "Steam" bps 1 its) as (Ho2 & Hs2 & Hl2).
  destruct (plot_streams "Stream" rtt 1 its) as [tr1 o1].
  destruct (plot_streams "Steam" bps 1 its) as [tr2 o2].
  simpl in *. subst o1 o2.
  cbn [fst snd]. split; [done |]. split.
  - unfold saved in *. rewrite omap_app, Hs1.
    cbn [omap list_omap app]. by rewrite omap_app, Hs2.
  - rewrite length_app. cbn [length]. rewrite length_app, Hl1, Hl2.
    cbn [length]. lia.
Qed.

(** The script has no guard of its own.  It ends normally exactly when the
    file could be loaded and has the keys that the collection loop indexes;
    then it has saved the two figures, first [rtt_vs_time_cubic.png], then
    [tput_vs_time_cubic.png].  Otherwise it ends on the uncaught exception
    before anything is drawn or saved. *)
Theorem main_outcome (w : world) :
  ((main w).2 = Returns tt <->
     exists iperf_data,
       json_load w file_path = inr iperf_data /\ well_keyed iperf_data) /\
  ((main w).2 = Returns tt ->
     saved (main w).1 = ["rtt_vs_time_cubic.png"; "tput_vs_time_cubic.png"]) /\
  ((main w).2 <> Returns tt ->
     (main w).1 = [] /\ exists exn, (main w).2 = Uncaught exn).
Proof.
  unfold main.
  destruct (json_load w file_path) as [exn | iperf_data].
  { simpl. split; [split; [done | by intros (? & ? & _)] |].
    split; [done | eauto]. }
  destruct (collect_keyed_key_errors iperf_data) as [Hok _].
  destruct (collect_keyed iperf_data) as [key | d].
  - simpl. split; [| split; [done | eauto]].
    split; [done |]. intros (r & [= <-] & Hr).
    apply Hok in Hr as [? ?]. done.
  - destruct (figures_returns (items d)) as (Ho & Hs & _).
    split; [| split; [done | done]].
    split; [| done]. intros _. exists iperf_data. split; [done |].
    apply Hok. eauto.
Qed.

Lemma plot_streams_lines word pick n its :
  Forall equal_lengths its ->
  plot_streams word pick (S n) its
  = (imap (fun k => line word pick (n + k)) its, Returns tt).
Proof.
  intros Hits. revert n.
  induction Hits as [| [id data] its [Hr Hb] _ IH]; intros n; [done |].
  cbn [plot_streams]. rewrite compute_averages_chunks by done.
  rewrite (IH (S n)). rewrite imap_cons. unfold line at 2.
  rewrite Nat.add_0_r. cbn [fst snd time]. do 2 f_equal.
  apply imap_ext. intros k it _. simpl. by rewrite Nat.add_succ_r.
Qed.

Lemma figures_lines its :
  Forall equal_lengths its ->
  figures its
  = (figures_log (imap (line "Stream" rtt) its) (imap (line "Steam" bps) its),
     Returns tt).
Proof.
  intros Hits. unfold figures.
  rewrite !(plot_streams_lines _ _ 0) by done. done.
Qed.

Lemma stream_items_equal_lengths iperf_data :
  Forall equal_lengths (stream_items iperf_data).
Proof.
  apply Forall_fmap, Forall_true. intros id.
  unfold equal_lengths. simpl. by rewrite !length_fmap.
Qed.

(** End to end, on a report with all its keys: the script draws, in each of
    the two figures, one line per socket id, in the order in which the ids
    first occur in the report and numbered from 1 in that order (not by
    socket id); the line of a socket plots the chunk averages of its series,
    [rtt] minus 45 in the first figure under the label [Stream n], [bps] in
    the second under the label [Steam n] (sic); then it returns. *)
Theorem main_draws_one_line_per_socket (w : world) (iperf_data : report) :
  json_load w file_path = inr (raw_of iperf_data) ->
  main w
  = (figures_log (imap (line "Stream" rtt) (stream_items iperf_data))
                 (imap (line "Steam" bps) (stream_items iperf_data)),
     Returns tt).
Proof.
  intros Hload. unfold main. rewrite Hload, collect_keyed_raw_of.
  pose proof (fold_collect_sample_tracks (samples iperf_data) _ [] tracks_empty)
    as Htr.
  rewrite app_nil_l in Htr. rewrite (tracks_items _ _ Htr).
  apply figures_lines, stream_items_equal_lengths.
Qed.

Lemma main_draws_one_line_per_socket_witness :
  main world_with_report
  = (figures_log (imap (line "Stream" rtt) (stream_items sample_report))
                 (imap (line "Steam" bps) (stream_items sample_report)),
     Returns tt).
Proof.
  apply (main_draws_one_line_per_socket world_with_report sample_report).
  reflexivity.
Defined.

(** A report without samples (no [intervals] key, no intervals, or no
    streams in any interval) is not an error: both figures are saved, with
    no line in them. *)
Theorem main_without_samples (w : world) (iperf_data : report) :
  json_load w file_path = inr (raw_of iperf_data) ->
  samples iperf_data = [] ->
  main w = (figures_log [] [], Returns tt).
Proof.
  intros Hload Hnone. unfold main. rewrite Hload, collect_keyed_raw_of, Hnone.
  reflexivity.
Qed.

Lemma main_without_samples_witness :
  main world_without_intervals = (figures_log [] [], Returns tt).
Proof.
  apply (main_without_samples world_without_intervals {| intervals := None |});
    reflexivity.
Defined.

(** *** No sample is lost *)

Lemma sum_list_fmap_add {A} (f g : A -> nat) (l : list A) :
  sum_list ((fun x => f x + g x)%nat <$> l)
  = (sum_list (f <$> l) + sum_list (g <$> l))%nat.
Proof. induction l as [| x l IH]; csimpl; [done | rewrite IH; lia]. Qed.

Lemma sum_list_indicator (a : Z) (ks : list Z) :
  NoDup ks -> a ∈ ks ->
  sum_list ((fun k => if decide (a = k) then 1 else 0)%nat <$> ks) = 1%nat.
Proof.
  induction 1 as [| k ks Hk Hnd IH]; intros Ha; [by apply elem_of_nil in Ha |].
  simpl. destruct (decide (a = k)) as [-> | Hne].
  - f_equal. clear IH Ha Hnd.
    induction ks as [| k' ks IH]; simpl; [done |].
    apply not_elem_of_cons in Hk as [? ?].
    rewrite decide_False by done. by apply IH.
  - apply elem_of_cons in Ha as [? | Ha]; [done |]. by apply IH.
Qed.

Lemma samples_counted (ks : list Z) (l : list (Q * stream)) :
  NoDup ks -> (forall id, id ∈ socket_ids l -> id ∈ ks) ->
  sum_list ((fun id => length (samples_of id l)) <$> ks) = length l.
Proof.
  intros Hnd. induction l as [| p l IH]; intros Hks; simpl.
  - induction ks as [| k ks IHk]; simpl; [done |].
    apply IHk; [by apply NoDup_cons in Hnd as [_ ?] | ].
    intros id Hid. by apply elem_of_nil in Hid.
  - transitivity
      (sum_list ((fun k => if decide (socket p.2 = k) then 1 else 0)%nat <$> ks)
       + sum_list ((fun id => length (samples_of id l)) <$> ks))%nat.
    + rewrite <- sum_list_fmap_add. f_equal.
      apply list_fmap_ext. intros _ k _. unfold samples_of.
      rewrite filter_cons. by destruct (decide (socket p.2 = k)).
    + rewrite sum_list_indicator, IH; [done | | done |].
      * intros id Hid. apply Hks. by apply list_elem_of_further.
      * apply Hks. apply list_elem_of_here.
Qed.

(** Grouping loses and duplicates nothing: over all the entries of the
    dictionary, the [time] lists (and the [rtt] and [bps] lists) have as
    many elements as the report has samples. *)
Theorem collect_keyed_counts_samples (iperf_data : report) :
  exists stream_data,
    collect_keyed (raw_of iperf_data) = inr stream_data /\
    sum_list ((fun it => length (time it.2)) <$> items stream_data)
    = length (samples iperf_data) /\
    sum_list ((fun it => length (rtt it.2)) <$> items stream_data)
    = length (samples iperf_data) /\
    sum_list ((fun it => length (bps it.2)) <$> items stream_data)
    = length (samples iperf_data).
Proof.
  eexists. split; [apply collect_keyed_raw_of |].
  pose proof (fold_collect_sample_tracks (samples iperf_data) _ [] tracks_empty)
    as Htr.
  rewrite app_nil_l in Htr. rewrite (tracks_items _ _ Htr).
  rewrite <- !list_fmap_compose.
  assert (Hcount := samples_counted (first_seen (socket_ids (samples iperf_data)))
            (samples iperf_data) (NoDup_first_seen _)
            (fun id Hid => proj2 (elem_of_first_seen _ id) Hid)).
  repeat split; rewrite <- Hcount; f_equal;
    apply list_fmap_ext; intros _ id _; simpl; by rewrite length_fmap.
Qed.

End PlotIperf3Script.

(** ** More on [compute_averages] *)

Module PlotIperf3Averages.
Import PlotIperf3 PlotIperf3Props.

(** A chunk size of 0 makes [range] raise [ValueError], even on an empty
    series; a negative one makes the range empty, and the function returns
    three empty lists without a word. *)
Theorem compute_averages_nonpositive (data : series Q) (c : Z) :
  c <= 0 ->
  compute_averages data c
  = if decide (c = 0) then None else Some (Series [] [] []).
Proof.
  intros Hc. unfold compute_averages, py_range.
  destruct (Z.eqb_spec c 0) as [-> | Hne]; [done |].
  rewrite decide_False by done.
  destruct (Z.ltb_spec 0 c) as [? | _]; [lia |].
  by replace (Z.to_nat (0 - Z.of_nat (length (time data)))) with 0%nat by lia.
Qed.

Lemma compute_averages_nonpositive_witness :
  compute_averages sample_stream (-3) = Some (Series [] [] []) /\
  compute_averages sample_stream 0 = None.
Proof.
  split.
  - apply (compute_averages_nonpositive sample_stream (-3)). lia.
  - apply (compute_averages_nonpositive sample_stream 0). lia.
Defined.

Lemma chunks_lookup {A} (l : list A) (c : Z) (k : nat) ch :
  chunks c l !! k = Some ch ->
  ch = chunk c l k /\
  (k < Z.to_nat (ceil_div (Z.of_nat (length l)) c))%nat.
Proof.
  unfold chunks. rewrite list_lookup_fmap. intros Hk.
  destruct (seq 0 _ !! k) as [k' |] eqn:Hseq; [| done].
  apply lookup_seq in Hseq as [-> ?]. simpl in Hk. by injection Hk as <-.
Qed.

(** The buckets are the means over a partition of the samples: each list is
    cut, in order and without overlap, into chunks that are all of
    [chunk_size] elements except the last, which has at least one and at
    most [chunk_size]. *)
Theorem compute_averages_partitions (data : series Q) (c : Z) :
  1 <= c ->
  length (rtt data) = length (time data) ->
  length (bps data) = length (time data) ->
  compute_averages data c
  = Some (Series
      (np_mean <$> chunks c (time data))
      ((fun ch => np_sub (np_mean ch) (inject_Z 45)) <$> chunks c (rtt data))
      (np_mean <$> chunks c (bps data))) /\
  forall l : list Q,
    concat (chunks c l) = l /\
    forall k ch, chunks c l !! k = Some ch ->
      (0 < length ch <= Z.to_nat c)%nat /\
      (S k < length (chunks c l) -> length ch = Z.to_nat c)%nat.
Proof.
  intros Hc Hr Hb. split; [apply compute_averages_chunks; [lia | done | done] |].
  intros l. split; [apply concat_chunks; lia |].
  intros k ch [-> Hk]%chunks_lookup.
  rewrite length_chunks, chunk_length.
  pose proof (chunk_index_inside (length l) c k ltac:(lia) Hk).
  split; [lia |]. intros Hnext.
  pose proof (chunk_index_inside (length l) c (S k) ltac:(lia) Hnext). lia.
Qed.

Lemma compute_averages_partitions_witness :
  compute_averages sample_stream 10
  = Some (Series
      (np_mean <$> chunks 10 (time sample_stream))
      ((fun ch => np_sub (np_mean ch) (inject_Z 45)) <$> chunks 10 (rtt sample_stream))
      (np_mean <$> chunks 10 (bps sample_stream))) /\
  forall l : list Q,
    concat (chunks 10 l) = l /\
    forall k ch, chunks 10 l !! k = Some ch ->
      (0 < length ch <= Z.to_nat 10)%nat /\
      (S k < length (chunks 10 l) -> length ch = Z.to_nat 10)%nat.
Proof.
  apply (compute_averages_partitions sample_stream 10);
    [lia | reflexivity | reflexivity].
Defined.

(** A chunk size that covers the whole series gives one bucket: the means
    of the three lists, [rtt] less 45. *)
Theorem compute_averages_one_bucket (data : series Q) (c : Z) :
  (0 < length (time data))%nat ->
  Z.of_nat (length (time data)) <= c ->
  length (rtt data) = length (time data) ->
  length (bps data) = length (time data) ->
  compute_averages data c
  = Some (Series
      [Some (arith_mean (time data))]
      [Some (arith_mean (rtt data) - inject_Z 45)%Q]
      [Some (arith_mean (bps data))]).
Proof.
  intros Hn Hc Hr Hb. rewrite compute_averages_buckets by lia.
  assert (ceil_div (Z.of_nat (length (time data))) c = 1) as ->.
  { pose proof (ceil_div_spec (Z.of_nat (length (time data))) c ltac:(lia)) as Hs.
    set (m := ceil_div _ _) in *.
    assert (0 < m) by nia.
    destruct (Z.lt_ge_cases m 2) as [? | Hge]; [lia |].
    assert (1 * c <= (m - 1) * c) by (apply Z.mul_le_mono_nonneg_r; lia). lia. }
  assert (Hall : forall l : list Q, length l = length (time data) ->
            np_mean (chunk c l 0) = Some (arith_mean l)).
  { intros l Hl. unfold chunk. simpl. rewrite drop_0, take_ge by lia.
    apply np_mean_nonempty. intros ->. simpl in Hl. lia. }
  change (Z.to_nat 1) with 1%nat. cbn [seq fmap list_fmap].
  by rewrite !Hall.
Qed.

Lemma compute_averages_one_bucket_witness :
  compute_averages sample_stream 100
  = Some (Series
      [Some (arith_mean (time sample_stream))]
      [Some (arith_mean (rtt sample_stream) - inject_Z 45)%Q]
      [Some (arith_mean (bps sample_stream))]).
Proof.
  apply (compute_averages_one_bucket sample_stream 100);
    [simpl; lia | simpl; lia | reflexivity | reflexivity].
Defined.

(** The guard looks at the time chunk only.  When the [rtt] list is
    shorter than the [time] list, the buckets past its end are still made,
    with [nan] for [rtt]. *)
Theorem compute_averages_short_rtt (data : series Q) (c : Z) (k : nat) :
  1 <= c ->
  (k * Z.to_nat c < length (time data))%nat ->
  (length (rtt data) <= k * Z.to_nat c)%nat ->
  exists avg_data, compute_averages data c = Some avg_data /\
    length (rtt avg_data) = length (time avg_data) /\
    is_Some (time avg_data !! k) /\
    rtt avg_data !! k = Some None.
Proof.
  intros Hc Hk Hshort. eexists. split; [apply compute_averages_buckets; lia |].
  cbn [time rtt]. rewrite !length_fmap, !list_lookup_fmap.
  assert (Hseq : seq 0 (Z.to_nat (ceil_div (Z.of_nat (length (time data))) c)) !! k
                 = Some k).
  { apply lookup_seq. split; [done |].
    pose proof (ceil_div_spec (Z.of_nat (length (time data))) c ltac:(lia)). nia. }
  rewrite Hseq. simpl. split; [done |]. split; [eauto |].
  unfold chunk. by rewrite drop_ge, take_nil by lia.
Qed.

Lemma compute_averages_short_rtt_witness :
  exists avg_data, compute_averages stream_without_rtt 10 = Some avg_data /\
    length (rtt avg_data) = length (time avg_data) /\
    is_Some (time avg_data !! 2%nat) /\
    rtt avg_data !! 2%nat = Some None.
Proof.
  apply (compute_averages_short_rtt stream_without_rtt 10 2);
    [lia | simpl; lia | simpl; lia].
Defined.

(** *** Averages stay in range *)











(** *** Averaged times keep their order *)





End PlotIperf3Averages.
